(** * webrider: the [Browser] base class and its session-parameters document

    A shallow embedding of the class [Browser] of the source file: the
    constructor, the four configuration methods, [getSessionParameters],
    [setExecutable] and [run], over a tree of JavaScript values; and of
    the key table [KEY]. *)

From Stdlib Require Import ZArith Ascii String.
From stdpp Require Import gmap strings list fin_maps.

#[local] Set Warnings "-register-all".
Local Open Scope string_scope.
Local Open Scope Z_scope.

(** ** JavaScript values *)

(** The values a session-parameters document is made of. An object is a
    finite map from its own property names to values, an array the list of
    its elements; numbers are the integers. [VBuiltin k] is what every
    object inherits under the name [k]: a built-in function, or under
    [__proto__] the prototype itself.

    A value is a tree. The program holds objects by reference: an object
    that is held in two places shows here as two equal subtrees, and a
    write into one of them does not show in the other. Where a statement
    below would depend on that, it takes primitives as arguments. *)
Inductive value : Type :=
| VUndefined
| VNull
| VBool (b : bool)
| VNum (n : Z)
| VStr (s : string)
| VArr (items : list value)
| VObj (fields : gmap string value)
| VBuiltin (k : string).

(** [typeof v] *)
Definition typeof (v : value) : string :=
  match v with
  | VUndefined => "undefined"
  | VNull => "object"
  | VBool _ => "boolean"
  | VNum _ => "number"
  | VStr _ => "string"
  | VArr _ => "object"
  | VObj _ => "object"
  | VBuiltin k => if String.eqb k "__proto__" then "object" else "function"
  end.

(** Truthiness, as [!v] and [if (v)] see it. *)
Definition truthy (v : value) : bool :=
  match v with
  | VUndefined | VNull => false
  | VBool b => b
  | VNum n => negb (n =? 0)
  | VStr s => negb (String.eqb s "")
  | VArr _ | VObj _ | VBuiltin _ => true
  end.

(** [!v] *)
Definition js_not (v : value) : value := VBool (negb (truthy v)).

(** [a === b] where one side is a primitive: equal types and equal
    contents. Two objects are identical only when they are one object, which
    neither use below asks about (each has a primitive operand). *)
Definition strict_equals (a b : value) : bool :=
  match a, b with
  | VUndefined, VUndefined => true
  | VNull, VNull => true
  | VBool x, VBool y => Bool.eqb x y
  | VNum x, VNum y => x =? y
  | VStr x, VStr y => String.eqb x y
  | _, _ => false
  end.

(** [items.indexOf(x)] from position [i] on: the first index whose element
    is strictly equal to [x], or -1. *)
Fixpoint indexOf_from (i : Z) (items : list value) (x : value) : Z :=
  match items with
  | [] => -1
  | y :: rest => if strict_equals y x then i else indexOf_from (i + 1) rest x
  end.

Definition indexOf (items : list value) (x : value) : Z := indexOf_from 0 items x.

(** [v.k] for a property name [k] that no built-in carries: [None] stands
    for the TypeError of reading a property of [undefined] or [null]. *)
Definition member (v : value) (k : string) : option value :=
  match v with
  | VUndefined | VNull => None
  | VObj fields => Some (default VUndefined (fields !! k))
  | _ => Some VUndefined
  end.

(** ** Errors and completions *)

(** [DOError] is an error that comes out of a call into the deepobject
    library: what kind of error it is, the source does not show. *)
Inductive error : Type :=
| Error (message : string)
| TypeError
| DOError.

(** A default parameter [force = d]: an omitted argument takes [d]. *)
Definition default_arg (d : bool) (force : option bool) : bool :=
  match force with
  | Some f => f
  | None => d
  end.

(** ** The deepobject dependency *)

Module DO.

(** Modelled from the spec: the library splits the path string into its
    segments at the dots, as [path.split('.')] does: always at least one
    segment; two dots in a row, a leading or a trailing dot give an empty
    segment. *)
Fixpoint split (path : string) : list string :=
  match path with
  | EmptyString => [EmptyString]
  | String c rest =>
      if Ascii.eqb c "."%char then EmptyString :: split rest
      else match split rest with
           | seg :: segs => String c seg :: segs
           | [] => [String c EmptyString]
           end
  end.

(** The names every object inherits from [Object.prototype]. *)
Definition inherited_names : list string :=
  [ "constructor"; "__defineGetter__"; "__defineSetter__"; "hasOwnProperty";
    "__lookupGetter__"; "__lookupSetter__"; "isPrototypeOf";
    "propertyIsEnumerable"; "toString"; "valueOf"; "__proto__";
    "toLocaleString" ].

Definition inherited (k : string) : bool :=
  existsb (String.eqb k) inherited_names.

(** Modelled from the spec: the deepobject library's deep-path read is not
    under src/. A walk over the value tree along the segments, by plain
    property reads: a mapping gives what it owns under the segment, or what
    every object inherits under it, or [undefined]. What a scalar, a
    sequence or a built-in holds under a name is not followed: the walk
    gives [undefined] there. *)
Fixpoint get_at (obj : value) (segments : list string) : value :=
  match segments with
  | [] => obj
  | k :: rest =>
      match obj with
      | VObj fields =>
          match fields !! k with
          | Some v => get_at v rest
          | None => if inherited k then get_at (VBuiltin k) rest else VUndefined
          end
      | _ => VUndefined
      end
  end.

(** Modelled from the spec: [DO.get(obj, path)]. *)
Definition get (obj : value) (path : string) : value :=
  get_at obj (split path).

(** Modelled from the spec: the node the walk of [set] goes down into at
    key [k]: the mapping or the sequence that is there, or else a new empty
    mapping, which takes the place of the scalar that was there, or of
    nothing. At [null] the same is done here; no statement below depends
    on it, since [walk] lets no [null] through and the others do not look
    under it. *)
Definition child (fields : gmap string value) (k : string) : value :=
  match fields !! k with
  | Some (VObj f) => VObj f
  | Some (VArr items) => VArr items
  | _ => VObj ∅
  end.

(** Modelled from the spec: the deepobject library's deep-path write is not
    under src/. The path is split into segments and the walk goes down
    them, creating intermediate mappings as needed, and writes the value at
    the last one. The result is the object after the write. An assignment
    under [__proto__] makes no property of the object's own. A write that
    goes on into a sequence is not followed: the list keeps showing the
    elements as they were pushed. [None] stands for the error of a walk
    that starts at something that is not an object. *)
Fixpoint set_at (obj : value) (segments : list string) (x : value) : option value :=
  match segments with
  | [] => Some x
  | k :: rest =>
      match obj with
      | VObj fields =>
          if String.eqb k "__proto__" then Some obj
          else match set_at (child fields k) rest x with
               | Some v => Some (VObj (<[k := v]> fields))
               | None => None
               end
      | VArr items => Some (VArr items)
      | _ => None
      end
  end.

(** Modelled from the spec: [DO.set(obj, path, x)]. The library does not
    take [undefined] as the value to write: that call throws, here [None],
    and nothing is written. *)
Definition set (obj : value) (path : string) (x : value) : option value :=
  match x with
  | VUndefined => None
  | _ => set_at obj (split path) x
  end.

(** What the walk may find under a segment it has to go through: a mapping,
    or nothing; with [scalars], also a boolean, a number or a string, which
    a write replaces by a new mapping. Never [null], a sequence or a
    built-in. *)
Definition passable (scalars : bool) (node : option value) : bool :=
  match node with
  | None | Some VUndefined | Some (VObj _) => true
  | Some (VBool _) | Some (VNum _) | Some (VStr _) => scalars
  | _ => false
  end.

(** The walk along the segments stays within what [get_at] and [set_at]
    follow: it starts at a mapping, no segment is a name that every object
    inherits, and every node it has to go through is [passable]. *)
Fixpoint walk (scalars : bool) (obj : value) (segments : list string) : bool :=
  match segments with
  | [] => true
  | k :: rest =>
      negb (inherited k)
      && match obj with
         | VObj fields =>
             match rest with
             | [] => true
             | _ :: _ =>
                 passable scalars (fields !! k)
                 && walk scalars (child fields k) rest
             end
         | _ => false
         end
  end.

End DO.

(** ** The class [Browser] *)

Record Browser : Type := mkBrowser {
  sessionParameters : value;
  name : string;
  specificKey : option string;      (* [null], or the key's string *)
  executable : option string;       (* [null], or a string *)
  _executable : option string       (* no such property, or a string *)
}.

(** What a method call leaves: it returns [this], or it throws. Both carry
    the object as the call left it. *)
Inductive result : Type :=
| Return (this : Browser)
| Throw (e : error) (this : Browser).

Definition state_of (r : result) : Browser :=
  match r with
  | Return this => this
  | Throw _ this => this
  end.

Definition constructor : Browser :=
  {| sessionParameters :=
       VObj {[ "capabilities" :=
                 VObj {[ "alwaysMatch" := VObj ∅; "firstMatch" := VArr [] ]} ]};
     name := "browser";
     specificKey := None;
     executable := None;
     _executable := None |}.

Definition with_sessionParameters (this : Browser) (sp : value) : Browser :=
  {| sessionParameters := sp;
     name := name this;
     specificKey := specificKey this;
     executable := executable this;
     _executable := _executable this |}.

(** [this.sessionParameters.capabilities] *)
Definition capabilities (this : Browser) : option value :=
  member (sessionParameters this) "capabilities".

(** [this.sessionParameters.capabilities.<k>] *)
Definition capability (this : Browser) (k : string) : option value :=
  match capabilities this with
  | Some caps => member caps k
  | None => None
  end.

(** [this.sessionParameters.capabilities.alwaysMatch] *)
Definition alwaysMatch (this : Browser) : option value :=
  capability this "alwaysMatch".

(** [this.sessionParameters.capabilities.firstMatch] *)
Definition firstMatch (this : Browser) : option value :=
  capability this "firstMatch".

(** The methods change the objects inside the document in place. After such
    a change to the object that [capabilities.<k>] refers to, the document
    holds the changed object [v] there (the change went through, so the
    container is there and the other cases do not arise). *)
Definition with_capability (this : Browser) (k : string) (v : value) : Browser :=
  match sessionParameters this with
  | VObj root =>
      match root !! "capabilities" with
      | Some (VObj caps) =>
          with_sessionParameters this
            (VObj (<["capabilities" := VObj (<[k := v]> caps)]> root))
      | _ => this
      end
  | _ => this
  end.

Definition setAlwaysMatchKey (this : Browser) (path : string) (v : value)
    (force : option bool) : result :=
  match alwaysMatch this with
  | None => Throw TypeError this
  | Some am =>
      if default_arg false force
         || String.eqb (typeof (DO.get am path)) "undefined"
      then match DO.set am path v with
           | Some am' => Return (with_capability this "alwaysMatch" am')
           | None => Throw DOError this
           end
      else Return this
  end.

(** [this.sessionParameters.capabilities.firstMatch.indexOf(name)]: arrays
    and strings have the method; its value on a string plays no part. *)
Definition firstMatch_indexOf (fm : value) (n : string) : option value :=
  match fm with
  | VArr items => Some (VNum (indexOf items (VStr n)))
  | VStr _ => Some (VNum (-1))
  | _ => None
  end.

(** [firstMatch.push({ [name]: value })] *)
Definition firstMatch_push (fm : value) (n : string) (v : value) : option value :=
  match fm with
  | VArr items => Some (VArr (items ++ [VObj {[ n := v ]}]))
  | _ => None
  end.

Definition addFirstMatch (this : Browser) (n : string) (v : value)
    (force : option bool) : result :=
  match firstMatch this with
  | None => Throw TypeError this
  | Some fm =>
      let push :=
        match firstMatch_push fm n v with
        | Some fm' => Return (with_capability this "firstMatch" fm')
        | None => Throw TypeError this
        end in
      if default_arg false force then push
      else match firstMatch_indexOf fm n with
           | None => Throw TypeError this
           | Some i =>
               if strict_equals (js_not i) (VNum (-1)) then push
               else Return this
           end
  end.

Definition setRootKey (this : Browser) (path : string) (v : value)
    (force : option bool) : result :=
  if default_arg true force
     || String.eqb (typeof (DO.get (sessionParameters this) path)) "undefined"
  then match DO.set (sessionParameters this) path v with
       | Some sp => Return (with_sessionParameters this sp)
       | None => Throw DOError this
       end
  else Return this.

Definition unsupported : error :=
  Error "setSpecificKey called for a browser that doesn't support them".

Definition setSpecificKey (this : Browser) (path : string) (v : value)
    (force : option bool) : result :=
  match specificKey this with
  | Some k =>
      if negb (truthy (VStr k)) then Throw unsupported this
      else if default_arg true force
              || String.eqb
                   (typeof (DO.get (sessionParameters this) (k ++ "." ++ path)))
                   "undefined"
      then match DO.set (sessionParameters this)
                   ("capabilities.alwaysMatch." ++ k ++ "." ++ path) v with
           | Some sp => Return (with_sessionParameters this sp)
           | None => Throw DOError this
           end
      else Return this
  | None => Throw unsupported this
  end.

Definition getSessionParameters (this : Browser) : value :=
  sessionParameters this.

Definition setExecutable (this : Browser) (exe : string) : Browser :=
  {| sessionParameters := sessionParameters this;
     name := name this;
     specificKey := specificKey this;
     executable := executable this;
     _executable := Some exe |}.

(** How a promise settles. *)
Inductive promise : Type :=
| Fulfilled (v : value)
| Rejected (e : error).

(** [async run (options) { }]: the object as the call leaves it, and the
    settlement of the promise it returns. *)
Definition run (this : Browser) (options : value) : Browser * promise :=
  (this, Fulfilled VUndefined).

(** ** Calls and sequences of calls *)

Inductive call : Type :=
| CallSetAlwaysMatchKey (path : string) (v : value) (force : option bool)
| CallAddFirstMatch (n : string) (v : value) (force : option bool)
| CallSetRootKey (path : string) (v : value) (force : option bool)
| CallSetSpecificKey (path : string) (v : value) (force : option bool).

Definition perform (this : Browser) (c : call) : result :=
  match c with
  | CallSetAlwaysMatchKey path v force => setAlwaysMatchKey this path v force
  | CallAddFirstMatch n v force => addFirstMatch this n v force
  | CallSetRootKey path v force => setRootKey this path v force
  | CallSetSpecificKey path v force => setSpecificKey this path v force
  end.

(** The object after a sequence of calls, the caller going on after a call
    that threw. *)
Fixpoint perform_all (this : Browser) (cs : list call) : Browser :=
  match cs with
  | [] => this
  | c :: rest => perform_all (state_of (perform this c)) rest
  end.

(** The container kinds of the document: [capabilities.alwaysMatch] is there
    and is a mapping, [capabilities.firstMatch] is there and is a sequence. *)
Definition well_formed (this : Browser) : bool :=
  match alwaysMatch this, firstMatch this with
  | Some (VObj _), Some (VArr _) => true
  | _, _ => false
  end.

(** The value at [path] under [capabilities.alwaysMatch]. *)
Definition alwaysMatch_at (this : Browser) (path : string) : value :=
  match alwaysMatch this with
  | Some am => DO.get am path
  | None => VUndefined
  end.

(** A path with an empty segment: a leading, a trailing or a doubled dot, or
    the empty path. *)
Definition has_empty_segment (path : string) : bool :=
  existsb (String.eqb "") (DO.split path).

(** The three root paths that name the containers themselves. *)
Definition names_container (path : string) : bool :=
  String.eqb path "capabilities"
  || String.eqb path "capabilities.alwaysMatch"
  || String.eqb path "capabilities.firstMatch".

(** A primitive: a value that is not an object. *)
Definition primitive (v : value) : bool :=
  match v with
  | VArr _ | VObj _ | VBuiltin _ => false
  | _ => true
  end.

(** The value a call passes. *)
Definition call_value (c : call) : value :=
  match c with
  | CallSetAlwaysMatchKey _ v _ => v
  | CallAddFirstMatch _ v _ => v
  | CallSetRootKey _ v _ => v
  | CallSetSpecificKey _ v _ => v
  end.

(** A [setRootKey] call that writes at one of the three paths: [force] is
    true or omitted, and the value is not [undefined]. *)
Definition replaces_container (c : call) : bool :=
  match c with
  | CallSetRootKey path v force =>
      names_container path
      && default_arg true force
      && negb (String.eqb (typeof v) "undefined")
  | _ => false
  end.

(** Modelled from the spec: the concrete variants are not under src/. A
    variant's constructor fixes [specificKey] after the base constructor
    has run; this is the object that assignment leaves. *)
Definition with_specificKey (this : Browser) (k : string) : Browser :=
  {| sessionParameters := sessionParameters this;
     name := name this;
     specificKey := Some k;
     executable := executable this;
     _executable := _executable this |}.

(** [segments.join('.')] *)
Fixpoint join (segments : list string) : string :=
  match segments with
  | [] => ""
  | [s] => s
  | s :: rest => s ++ "." ++ join rest
  end.

(** The document [sp] has its two containers. *)
Definition shape (sp : value) : Prop :=
  ∃ (root caps am : gmap string value) (fm : list value),
    sp = VObj root
    ∧ root !! "capabilities" = Some (VObj caps)
    ∧ caps !! "alwaysMatch" = Some (VObj am)
    ∧ caps !! "firstMatch" = Some (VArr fm).

(** ** The key table *)

(** The object literal [KEY], in source order: each property name with the
    UTF-16 code units of the string it holds. *)
Definition KEY_entries : list (string * list Z) :=
  [
    ("NULL", [0xE000]); ("CANCEL", [0xE001]); ("HELP", [0xE002]);
    ("BACK_SPACE", [0xE003]); ("TAB", [0xE004]); ("CLEAR", [0xE005]);
    ("RETURN", [0xE006]); ("ENTER", [0xE007]); ("SHIFT", [0xE008]);
    ("CONTROL", [0xE009]); ("ALT", [0xE00A]); ("PAUSE", [0xE00B]);
    ("ESCAPE", [0xE00C]); ("SPACE", [0xE00D]); ("PAGE_UP", [0xE00E]);
    ("PAGE_DOWN", [0xE00F]); ("END", [0xE010]); ("HOME", [0xE011]);
    ("ARROW_LEFT", [0xE012]); ("LEFT", [0xE012]); ("ARROW_UP", [0xE013]);
    ("UP", [0xE013]); ("ARROW_RIGHT", [0xE014]); ("RIGHT", [0xE014]);
    ("ARROW_DOWN", [0xE015]); ("DOWN", [0xE015]); ("INSERT", [0xE016]);
    ("DELETE", [0xE017]); ("SEMICOLON", [0xE018]); ("EQUALS", [0xE019]);
    ("NUMPAD0", [0xE01A]); ("NUMPAD1", [0xE01B]); ("NUMPAD2", [0xE01C]);
    ("NUMPAD3", [0xE01D]); ("NUMPAD4", [0xE01E]); ("NUMPAD5", [0xE01F]);
    ("NUMPAD6", [0xE020]); ("NUMPAD7", [0xE021]); ("NUMPAD8", [0xE022]);
    ("NUMPAD9", [0xE023]); ("MULTIPLY", [0xE024]); ("ADD", [0xE025]);
    ("SEPARATOR", [0xE026]); ("SUBTRACT", [0xE027]); ("DECIMAL", [0xE028]);
    ("DIVIDE", [0xE029]); ("F1", [0xE031]); ("F2", [0xE032]);
    ("F3", [0xE033]); ("F4", [0xE034]); ("F5", [0xE035]);
    ("F6", [0xE036]); ("F7", [0xE037]); ("F8", [0xE038]);
    ("F9", [0xE039]); ("F10", [0xE03A]); ("F11", [0xE03B]);
    ("F12", [0xE03C]); ("COMMAND", [0xE03D]); ("META", [0xE03D]);
    ("ZENKAKU_HANKAKU", [0xE040])
  ].

(** The object [KEY]. *)
Definition KEY : gmap string (list Z) := list_to_map KEY_entries.

(** The pairs of names the table gives one key: the arrow keys under their
    short names, and the command key under its other name. *)
Definition KEY_aliases : list (string * string) :=
  [ ("ARROW_LEFT", "LEFT"); ("ARROW_UP", "UP"); ("ARROW_RIGHT", "RIGHT");
    ("ARROW_DOWN", "DOWN"); ("COMMAND", "META") ].

(** ** What a sequence of calls pushes *)

(** The entries that the forced [addFirstMatch] calls of a sequence push,
    in the order of the calls. *)
Fixpoint pushed (cs : list call) : list value :=
  match cs with
  | [] => []
  | CallAddFirstMatch n v force :: rest =>
      if default_arg false force then VObj {[ n := v ]} :: pushed rest
      else pushed rest
  | _ :: rest => pushed rest
  end.


(** The root paths that name [capabilities] itself, or
    [capabilities.firstMatch] or something in it. *)
Definition names_firstMatch (path : string) : bool :=
  match DO.split path with
  | [] => false
  | k1 :: rest =>
      String.eqb k1 "capabilities"
      && match rest with
         | [] => true
         | k2 :: _ => String.eqb k2 "firstMatch"
         end
  end.

(** A call that is not a [setRootKey] on one of them. *)
Definition keeps_firstMatch (c : call) : bool :=
  match c with
  | CallSetRootKey path _ _ => negb (names_firstMatch path)
  | _ => true
  end.

(** A call that is not a forced [addFirstMatch]. *)
Definition repeatable (c : call) : bool :=
  match c with
  | CallAddFirstMatch _ _ force => negb (default_arg false force)
  | _ => true
  end.

(** ** The path walk *)

Section Walk.

Implicit Types (obj v x y : value) (segments : list string) (path : string).

Lemma split_nonempty path : DO.split path ≠ [].
Proof.
  induction path as [|c rest IH]; simpl; [done|].
  destruct (Ascii.eqb c "."); [done|].
  destruct (DO.split rest); done.
Qed.

Lemma split_cons path : ∃ k rest, DO.split path = k :: rest.
Proof.
  pose proof (split_nonempty path) as H.
  destruct (DO.split path) as [|k rest]; [done|eauto].
Qed.

(** Splitting a path that was put together with a dot. *)
Lemma split_app_dot a b :
  DO.split (a ++ "." ++ b) = (DO.split a ++ DO.split b)%list.
Proof.
  induction a as [|c rest IH]; simpl in *; [done|].
  rewrite IH. destruct (Ascii.eqb c "."); [done|].
  destruct (split_cons rest) as (k & segs & ->). done.
Qed.

Lemma join_split path : join (DO.split path) = path.
Proof.
  induction path as [|c rest IH]; simpl; [done|].
  destruct (Ascii.eqb_spec c ".") as [->|_].
  - destruct (split_cons rest) as (k & segs & E).
    rewrite E in *. simpl in *. by rewrite IH.
  - destruct (split_cons rest) as (k & segs & E).
    rewrite E in *. destruct segs; simpl in *; by rewrite <- IH.
Qed.

Lemma split_inj p q : DO.split p = DO.split q → p = q.
Proof. intros E. by rewrite <- (join_split p), E, join_split. Qed.

(** A write is read back. *)

Lemma inherited_proto k : DO.inherited k = false → String.eqb k "__proto__" = false.
Proof.
  intros H. destruct (String.eqb_spec k "__proto__") as [->|]; [|done].
  by vm_compute in H.
Qed.

Lemma child_obj (fields : gmap string value) k f :
  fields !! k = Some (VObj f) → DO.child fields k = VObj f.
Proof. unfold DO.child. by intros ->. Qed.

Lemma child_missing (fields : gmap string value) k :
  fields !! k = None → DO.child fields k = VObj ∅.
Proof. unfold DO.child. by intros ->. Qed.

(** Where the walk may pass, the write goes down into a mapping. *)
Lemma child_passable scalars (fields : gmap string value) k :
  DO.passable scalars (fields !! k) = true → ∃ f, DO.child fields k = VObj f.
Proof.
  unfold DO.child, DO.passable.
  destruct (fields !! k) as [[]|]; try done; eauto.
Qed.

(** What a write leaves of the object it starts at: a mapping stays a
    mapping, a sequence stays as it is. *)
Lemma set_at_obj k rest obj x obj' :
  DO.set_at obj (k :: rest) x = Some obj' →
  ((∃ fields, obj = VObj fields) ∧ (∃ fields', obj' = VObj fields'))
  ∨ ((∃ items, obj = VArr items) ∧ obj' = obj).
Proof.
  simpl. destruct obj; try done.
  - intros [= <-]. right. eauto.
  - destruct (String.eqb k "__proto__"); [intros [= <-]; left; eauto|].
    destruct (DO.set_at _ rest x); [|done].
    intros [= <-]. left. eauto.
Qed.

Lemma set_at_defined_root k rest obj x obj' :
  DO.set_at obj (k :: rest) x = Some obj' → obj ≠ VUndefined ∧ obj' ≠ VUndefined.
Proof.
  intros H. destruct (set_at_obj _ _ _ _ _ H) as [[[? ->] [? ->]]|[[? ->] ->]]; done.
Qed.

(** A walk that may pass with scalars barred may pass with them let in. *)
Lemma walk_scalars segments : ∀ obj,
  DO.walk false obj segments = true → DO.walk true obj segments = true.
Proof.
  induction segments as [|k rest IH]; intros obj; simpl; [done|].
  destruct (DO.inherited k); [done|]. simpl.
  destruct obj; try done.
  destruct rest as [|k' rest']; [done|].
  intros [Hp Hw]%andb_true_iff. apply andb_true_iff. split.
  - unfold DO.passable in *. by destruct (fields !! k) as [[]|].
  - by apply IH.
Qed.

(** Along such a walk the write goes through, the value is read back where
    it was written, and the walk now meets mappings only. *)
Lemma set_at_walk segments : ∀ obj x,
  DO.walk true obj segments = true →
  ∃ obj', DO.set_at obj segments x = Some obj'
    ∧ DO.get_at obj' segments = x
    ∧ DO.walk false obj' segments = true.
Proof.
  induction segments as [|k rest IH]; intros obj x H; simpl in *.
  - eauto.
  - apply andb_true_iff in H as [Hk H]. apply negb_true_iff in Hk.
    rewrite Hk. rewrite (inherited_proto _ Hk). simpl.
    destruct obj; try done.
    destruct rest as [|k' rest'].
    + simpl. eexists. split; [done|]. cbn. by rewrite lookup_insert_eq.
    + apply andb_true_iff in H as [Hp Hw].
      destruct (IH _ x Hw) as (c & Hset & Hget & Hwalk).
      rewrite Hset. eexists. split; [done|]. cbn.
      rewrite lookup_insert_eq. split; [done|].
      assert (∃ fc, c = VObj fc) as [fc ->].
      { destruct (child_passable _ _ _ Hp) as [f Hf]. rewrite Hf in Hset.
        destruct (set_at_obj _ _ _ _ _ Hset) as [[_ ?]|[[? ?] _]]; done. }
      simpl. by rewrite (child_obj _ _ fc) by apply lookup_insert_eq.
Qed.

(** Writing again what was just written changes nothing. *)
Lemma set_at_same segments : ∀ obj x obj',
  DO.set_at obj segments x = Some obj' → DO.set_at obj' segments x = Some obj'.
Proof.
  induction segments as [|k rest IH]; intros obj x obj' H; simpl in *.
  - congruence.
  - destruct obj; try done.
    + by injection H as <-.
    + destruct (String.eqb k "__proto__") eqn:Hk.
      { by injection H as <-. }
      destruct (DO.set_at (DO.child fields k) rest x) as [c|] eqn:E; [|done].
      injection H as <-. simpl.
      destruct rest as [|k' rest'].
      * simpl in *. injection E as <-. by rewrite insert_insert_eq.
      * assert (DO.child (<[k := c]> fields) k = c) as ->.
        { unfold DO.child. rewrite lookup_insert_eq.
          destruct (set_at_obj _ _ _ _ _ E) as [[_ [? ->]]|[[? Hc] ->]];
            [done|by rewrite Hc]. }
        rewrite (IH _ _ _ E). by rewrite insert_insert_eq.
Qed.

Lemma get_at_empty segments :
  forallb (λ k, negb (DO.inherited k)) segments = true →
  segments ≠ [] → DO.get_at (VObj ∅) segments = VUndefined.
Proof.
  destruct segments as [|k rest]; [done|]. simpl.
  intros [Hk _]%andb_true_iff _. apply negb_true_iff in Hk.
  by rewrite lookup_empty, Hk.
Qed.

(** In an empty mapping the walk may pass when no segment is an inherited
    name. *)
Lemma walk_empty scalars segments :
  DO.walk scalars (VObj ∅) segments
  = forallb (λ k, negb (DO.inherited k)) segments.
Proof.
  induction segments as [|k rest IH]; simpl; [done|].
  destruct rest as [|k' rest']; [done|].
  rewrite lookup_empty. unfold DO.child at 1. rewrite lookup_empty.
  cbn [DO.passable andb]. by rewrite IH.
Qed.

Lemma typeof_undefined v :
  String.eqb (typeof v) "undefined" = true ↔ v = VUndefined.
Proof. destruct v; simpl; split; try done. by case_match. Qed.

Lemma typeof_defined v :
  v ≠ VUndefined → String.eqb (typeof v) "undefined" = false.
Proof. destruct v; try done. intros _. simpl. by case_match. Qed.

Lemma set_defined obj path v :
  v ≠ VUndefined → DO.set obj path v = DO.set_at obj (DO.split path) v.
Proof. by destruct v. Qed.

End Walk.

(** ** The shape of the document *)

Section Document.

Implicit Types (this : Browser) (sp v : value) (k path : string).

Lemma capability_inv this k v :
  capability this k = Some v → v ≠ VUndefined →
  ∃ root caps : gmap string value,
    sessionParameters this = VObj root
    ∧ root !! "capabilities" = Some (VObj caps)
    ∧ caps !! k = Some v.
Proof.
  unfold capability, capabilities, member.
  destruct (sessionParameters this) as [| | | | | |root|]; try done;
    try (intros [= <-]; done).
  destruct (root !! "capabilities") as [c|] eqn:Ec; simpl; [|done].
  destruct c as [| | | | | |caps|]; try done; try (intros [= <-]; done).
  destruct (caps !! k) as [w|] eqn:Ek; simpl; intros [= <-] Hv; [|done].
  eauto.
Qed.

Lemma capability_shape this root caps k :
  sessionParameters this = VObj root →
  root !! "capabilities" = Some (VObj caps) →
  capability this k = Some (default VUndefined (caps !! k)).
Proof.
  intros Hsp Hc. unfold capability, capabilities, member.
  by rewrite Hsp, Hc.
Qed.

Lemma well_formed_shape this :
  well_formed this = true ↔ shape (sessionParameters this).
Proof.
  unfold well_formed, alwaysMatch, firstMatch. split.
  - destruct (capability this "alwaysMatch") as [[| | | | | |am|]|] eqn:Ea;
      try done.
    destruct (capability this "firstMatch") as [[| | | | |fm| |]|] eqn:Ef;
      try done.
    intros _.
    destruct (capability_inv _ _ _ Ea) as (root & caps & Hsp & Hc & Ham); [done|].
    destruct (capability_inv _ _ _ Ef) as (root' & caps' & Hsp' & Hc' & Hfm); [done|].
    rewrite Hsp in Hsp'. injection Hsp' as <-.
    rewrite Hc in Hc'. injection Hc' as <-.
    exists root, caps, am, fm. done.
  - intros (root & caps & am & fm & Hsp & Hc & Ham & Hfm).
    rewrite !(capability_shape _ _ _ _ Hsp Hc), Ham, Hfm. done.
Qed.

(** The in-place change of a container is seen through the document. *)
Lemma capability_with_capability this k v v' :
  capability this k = Some v → v ≠ VUndefined →
  capability (with_capability this k v') k = Some v'.
Proof.
  intros H Hv. destruct (capability_inv _ _ _ H Hv) as (root & caps & Hsp & Hc & Hk).
  unfold with_capability. rewrite Hsp, Hc.
  unfold capability, capabilities, member; simpl.
  rewrite lookup_insert_eq; simpl. by rewrite lookup_insert_eq.
Qed.

Lemma shape_with_capability this k v' :
  shape (sessionParameters this) →
  (k = "alwaysMatch" ∧ (∃ am', v' = VObj am'))
  ∨ (k = "firstMatch" ∧ (∃ fm', v' = VArr fm')) →
  shape (sessionParameters (with_capability this k v')).
Proof.
  intros (root & caps & am & fm & Hsp & Hc & Ham & Hfm) Hk.
  unfold with_capability. rewrite Hsp, Hc. simpl.
  destruct Hk as [[-> [am' ->]]|[-> [fm' ->]]].
  - exists (<["capabilities" := VObj (<["alwaysMatch" := VObj am']> caps)]> root),
      (<["alwaysMatch" := VObj am']> caps), am', fm.
    by simplify_map_eq.
  - exists (<["capabilities" := VObj (<["firstMatch" := VArr fm']> caps)]> root),
      (<["firstMatch" := VArr fm']> caps), am, fm'.
    by simplify_map_eq.
Qed.

End Document.

(** ** A new variant *)

(** C7: a newly constructed variant, before any setter call, has a document
    whose [capabilities.alwaysMatch] is there as an empty mapping and whose
    [capabilities.firstMatch] is there as an empty sequence, and
    [getSessionParameters] returns that document. *)
Theorem new_variant_document :
  getSessionParameters constructor
  = VObj {[ "capabilities" :=
              VObj {[ "alwaysMatch" := VObj ∅; "firstMatch" := VArr [] ]} ]}
  ∧ alwaysMatch constructor = Some (VObj ∅)
  ∧ firstMatch constructor = Some (VArr []).
Proof. repeat split; reflexivity. Qed.

Lemma constructor_well_formed : well_formed constructor = true.
Proof. reflexivity. Qed.

(** The document of a Chrome-like variant, as the class comment shows it:
    the key [chromeOptions], seeded with [w3c: true]. *)
Example chrome_like_document :
  getSessionParameters
    (state_of (setSpecificKey (with_specificKey constructor "chromeOptions")
                 "w3c" (VBool true) None))
  = VObj {[ "capabilities" :=
              VObj {[ "alwaysMatch" :=
                        VObj {[ "chromeOptions" := VObj {[ "w3c" := VBool true ]} ]};
                      "firstMatch" := VArr [] ]} ]}.
Proof. reflexivity. Qed.

(** ** [setExecutable] *)

(** C3, on the code: [setExecutable(p)] stores [p] in the property
    [_executable] and leaves [executable] as it was, so on a new variant
    [executable] is still [null] after the call. *)
Theorem setExecutable_leaves_executable (this : Browser) (p : string) :
  executable (setExecutable this p) = executable this
  ∧ _executable (setExecutable this p) = Some p
  ∧ executable constructor = None
  ∧ executable (setExecutable constructor p) = None.
Proof. repeat split. Qed.

(** ** [addFirstMatch] *)

(** [!i === -1] compares a boolean with a number. *)
Lemma not_index_never_minus_one (i : value) :
  strict_equals (js_not i) (VNum (-1)) = false.
Proof. reflexivity. Qed.

(** Without [force] the call changes nothing, whatever the document holds. *)
Lemma addFirstMatch_unforced (this : Browser) (n : string) (v : value)
    (force : option bool) :
  default_arg false force = false →
  state_of (addFirstMatch this n v force) = this.
Proof.
  intros Hf. unfold addFirstMatch. rewrite Hf.
  destruct (firstMatch this) as [fm|]; [|done].
  destruct (firstMatch_indexOf fm n) as [i|]; [|done].
  by rewrite not_index_never_minus_one.
Qed.

(** With [force] the entry is appended. *)
Lemma addFirstMatch_forced (this : Browser) (n : string) (v : value)
    (items : list value) :
  firstMatch this = Some (VArr items) →
  ∃ this', addFirstMatch this n v (Some true) = Return this'
    ∧ firstMatch this' = Some (VArr (items ++ [VObj {[ n := v ]}])).
Proof.
  intros H. unfold addFirstMatch. rewrite H. simpl.
  eexists. split; [done|].
  by apply (capability_with_capability _ _ (VArr items)).
Qed.

(** C1, on the code: on a new variant [addFirstMatch(n, v1)] without [force]
    returns with nothing appended, and after a second unforced call
    [capabilities.firstMatch] is still the empty sequence; only a forced
    call appends [{n: v1}]. *)
Theorem addFirstMatch_unforced_never_appends (n : string) (v1 v2 : value) :
  addFirstMatch constructor n v1 None = Return constructor
  ∧ firstMatch
      (state_of (addFirstMatch
                   (state_of (addFirstMatch constructor n v1 None)) n v2 None))
    = Some (VArr [])
  ∧ firstMatch (state_of (addFirstMatch constructor n v1 (Some true)))
    = Some (VArr [VObj {[ n := v1 ]}]).
Proof.
  split; [reflexivity|]. split.
  - by rewrite !addFirstMatch_unforced.
  - destruct (addFirstMatch_forced constructor n v1 [] eq_refl) as (b & -> & Hb).
    exact Hb.
Qed.

(** ** [run] *)

(** C2, as the claim has it, fails: with an executable path that names no
    file, [run] still fulfils its promise. *)
Lemma run_without_executable_fulfils :
  ¬ (∀ (exists_file : string → bool) (this : Browser) (options : value),
        (∃ p, _executable this = Some p ∧ exists_file p = false) →
        ∃ e, snd (run this options) = Rejected e).
Proof.
  intros H.
  destruct (H (λ _, false) (setExecutable constructor "/nonexistent/chromedriver")
              VUndefined) as [e He].
  - by eexists.
  - discriminate He.
Qed.

(** C2, amended: the base variant's [run(options)] has an empty body. For
    every variant and every options value, whatever executable was set, its
    promise is fulfilled with [undefined] and the variant is left as it
    was: nothing is launched and no failure is reported. *)
Theorem run_is_empty (this : Browser) (options : value) :
  run this options = (this, Fulfilled VUndefined)
  ∧ ∀ p, snd (run (setExecutable this p) options) = Fulfilled VUndefined.
Proof. split; reflexivity. Qed.

(** ** [setSpecificKey] *)

Lemma nonempty_truthy (k : string) : k ≠ "" → truthy (VStr k) = true.
Proof. intros H. simpl. by apply negb_true_iff, String.eqb_neq. Qed.

(** C6: a variant whose [specificKey] is [null] throws the "doesn't support
    them" error on every [setSpecificKey] call and is left unchanged, its
    document included; a variant that has a specific key (a non-empty
    string, which is what the guard [!this.specificKey] lets through) never
    throws that error. *)
Theorem setSpecificKey_needs_specificKey (this : Browser) (path : string)
    (v : value) (force : option bool) :
  (specificKey this = None →
     setSpecificKey this path v force = Throw unsupported this
     ∧ getSessionParameters (state_of (setSpecificKey this path v force))
       = getSessionParameters this)
  ∧ (∀ k, specificKey this = Some k → k ≠ "" →
       ∀ this', setSpecificKey this path v force ≠ Throw unsupported this').
Proof.
  split.
  - intros H. unfold setSpecificKey. by rewrite H.
  - intros k H Hk this'. unfold setSpecificKey. rewrite H.
    rewrite (nonempty_truthy k Hk). simpl.
    destruct (default_arg true force || _); [|done].
    by destruct (DO.set _ _ _).
Qed.

Lemma setSpecificKey_needs_specificKey_witness :
  (setSpecificKey constructor "args" (VArr []) None = Throw unsupported constructor
   ∧ getSessionParameters (state_of (setSpecificKey constructor "args" (VArr []) None))
     = getSessionParameters constructor)
  ∧ ∀ this',
      setSpecificKey (with_specificKey constructor "chromeOptions") "w3c"
        (VBool true) None ≠ Throw unsupported this'.
Proof.
  split.
  - apply (setSpecificKey_needs_specificKey constructor "args" (VArr []) None).
    reflexivity.
  - apply (proj2 (setSpecificKey_needs_specificKey
                    (with_specificKey constructor "chromeOptions") "w3c"
                    (VBool true) None) "chromeOptions").
    + reflexivity.
    + discriminate.
Defined.

(** ** [setAlwaysMatchKey] *)

Section AlwaysMatch.

Implicit Types (this : Browser) (v : value) (path : string).

(** A write that went through, as the document shows it. *)
Lemma setAlwaysMatchKey_written this path v am am' :
  alwaysMatch this = Some am → DO.set am path v = Some am' →
  alwaysMatch (with_capability this "alwaysMatch" am') = Some am'.
Proof.
  intros Ham Hset.
  destruct (split_cons path) as (k & rest & Hp).
  assert (am ≠ VUndefined) as Hdef.
  { unfold DO.set in Hset. destruct v; try done; rewrite Hp in Hset;
      by destruct (set_at_defined_root _ _ _ _ _ Hset). }
  by apply (capability_with_capability _ _ am).
Qed.

(** An unforced call where a value is already there changes nothing. *)
Lemma setAlwaysMatchKey_kept this path v force :
  default_arg false force = false →
  alwaysMatch_at this path ≠ VUndefined →
  setAlwaysMatchKey this path v force = Return this.
Proof.
  intros Hf. unfold alwaysMatch_at, setAlwaysMatchKey. rewrite Hf.
  destruct (alwaysMatch this) as [am|]; [|done].
  intros H. by rewrite (typeof_defined _ H).
Qed.

(** A write along a walk that may pass: the call returns and the value is
    there. *)
Lemma setAlwaysMatchKey_writes this path v am force :
  alwaysMatch this = Some am →
  DO.walk true am (DO.split path) = true →
  v ≠ VUndefined →
  default_arg false force || String.eqb (typeof (DO.get am path)) "undefined"
  = true →
  ∃ am', setAlwaysMatchKey this path v force
         = Return (with_capability this "alwaysMatch" am')
    ∧ alwaysMatch (with_capability this "alwaysMatch" am') = Some am'
    ∧ DO.get am' path = v
    ∧ DO.walk false am' (DO.split path) = true.
Proof.
  intros Ham Hwalk Hv Hcond.
  destruct (set_at_walk _ am v Hwalk) as (am' & Hset & Hget & Hwalk').
  rewrite <- (set_defined _ _ _ Hv) in Hset.
  unfold setAlwaysMatchKey. rewrite Ham, Hcond, Hset.
  exists am'. split; [done|]. split; [|done].
  by apply (setAlwaysMatchKey_written _ path v am).
Qed.

End AlwaysMatch.

(** With [a.b] seeded as 0, two unforced calls with 1 and 2 leave 0; on a
    new variant, an unforced call with [undefined], which throws, followed
    by an unforced 2 leaves 2. *)
Example setAlwaysMatchKey_seeded_and_undefined :
  alwaysMatch_at
    (perform_all constructor
       [ CallSetAlwaysMatchKey "a.b" (VNum 0) None;
         CallSetAlwaysMatchKey "a.b" (VNum 1) None;
         CallSetAlwaysMatchKey "a.b" (VNum 2) None ]) "a.b" = VNum 0
  ∧ alwaysMatch_at
      (perform_all constructor
         [ CallSetAlwaysMatchKey "a.b" VUndefined None;
           CallSetAlwaysMatchKey "a.b" (VNum 2) None ]) "a.b" = VNum 2.
Proof. split; reflexivity. Qed.

(** C4, as the claim has it, fails on a variant that already holds a value
    at the path, where the first unforced call writes nothing, and for
    [undefined] as the first value, which is not written, so that the
    second call writes its own: neither for every variant and every first
    value but [undefined], nor for every variant with no value at the path
    and every first value, do the two unforced calls leave the first
    value. *)
Lemma setAlwaysMatchKey_first_call_may_not_win :
  ¬ (∀ (this : Browser) (p : string) (v1 v2 : value),
        well_formed this = true → v1 ≠ VUndefined →
        alwaysMatch_at
          (state_of (setAlwaysMatchKey
                       (state_of (setAlwaysMatchKey this p v1 None)) p v2 None))
          p = v1)
  ∧ ¬ (∀ (this : Browser) (p : string) (v1 v2 : value),
          well_formed this = true → alwaysMatch_at this p = VUndefined →
          alwaysMatch_at
            (state_of (setAlwaysMatchKey
                         (state_of (setAlwaysMatchKey this p v1 None)) p v2 None))
            p = v1).
Proof.
  split; intros H.
  - specialize (H (state_of (setAlwaysMatchKey constructor "a.b" (VNum 0) None))
                  "a.b" (VNum 1) (VNum 2) eq_refl).
    assert (VNum 1 ≠ VUndefined) as Hv by discriminate.
    apply H in Hv. vm_compute in Hv. discriminate Hv.
  - specialize (H constructor "a.b" VUndefined (VNum 2) eq_refl eq_refl).
    vm_compute in H. discriminate H.
Qed.

(** C4, amended: on a variant that holds no value yet at the path [p] under
    [capabilities.alwaysMatch], where the walk along [p] meets mappings
    only and no segment is a name that every object inherits, and for a
    first value [v1] other than [undefined]: [setAlwaysMatchKey(p, v1)]
    returns and the value at [p] is [v1]; a following
    [setAlwaysMatchKey(p, v2)] with [force] omitted or false returns and
    leaves everything as it was, so the value at [p] is still [v1]; with
    [force] true and [v2] other than [undefined] it returns and the value
    at [p] is [v2]. *)
Theorem setAlwaysMatchKey_first_write_wins (this : Browser) (am : value)
    (p : string) (v1 v2 : value) :
  alwaysMatch this = Some am →
  DO.walk false am (DO.split p) = true →
  alwaysMatch_at this p = VUndefined →
  v1 ≠ VUndefined →
  ∃ this1,
    setAlwaysMatchKey this p v1 None = Return this1
    ∧ alwaysMatch_at this1 p = v1
    ∧ setAlwaysMatchKey this1 p v2 None = Return this1
    ∧ setAlwaysMatchKey this1 p v2 (Some false) = Return this1
    ∧ (v2 ≠ VUndefined →
       ∃ this2, setAlwaysMatchKey this1 p v2 (Some true) = Return this2
         ∧ alwaysMatch_at this2 p = v2).
Proof.
  intros Ham Hwalk Hfree Hv1.
  unfold alwaysMatch_at in Hfree. rewrite Ham in Hfree.
  destruct (setAlwaysMatchKey_writes this p v1 am None Ham
              (walk_scalars _ _ Hwalk) Hv1) as (am1 & Hcall & Ham1 & Hget & Hwalk1).
  { rewrite Hfree. done. }
  exists (with_capability this "alwaysMatch" am1).
  assert (alwaysMatch_at (with_capability this "alwaysMatch" am1) p = v1) as Hat.
  { unfold alwaysMatch_at. by rewrite Ham1. }
  split; [done|]. split; [done|].
  split; [apply setAlwaysMatchKey_kept; [done|by rewrite Hat]|].
  split; [apply setAlwaysMatchKey_kept; [done|by rewrite Hat]|].
  intros Hv2.
  destruct (setAlwaysMatchKey_writes _ p v2 am1 (Some true) Ham1
              (walk_scalars _ _ Hwalk1) Hv2 eq_refl)
    as (am2 & Hcall2 & Ham2 & Hget2 & _).
  eexists. split; [done|].
  unfold alwaysMatch_at. by rewrite Ham2.
Qed.

Lemma setAlwaysMatchKey_first_write_wins_witness :
  ∃ this1,
    setAlwaysMatchKey constructor "a.b" (VNum 1) None = Return this1
    ∧ alwaysMatch_at this1 "a.b" = VNum 1
    ∧ setAlwaysMatchKey this1 "a.b" (VNum 2) None = Return this1
    ∧ setAlwaysMatchKey this1 "a.b" (VNum 2) (Some false) = Return this1
    ∧ ∃ this2, setAlwaysMatchKey this1 "a.b" (VNum 2) (Some true) = Return this2
        ∧ alwaysMatch_at this2 "a.b" = VNum 2.
Proof.
  destruct (setAlwaysMatchKey_first_write_wins constructor (VObj ∅) "a.b"
              (VNum 1) (VNum 2)) as (this1 & H1 & H2 & H3 & H4 & H5).
  - reflexivity.
  - reflexivity.
  - reflexivity.
  - discriminate.
  - exists this1. repeat (split; [assumption|]). apply H5. discriminate.
Defined.

(** ** [setRootKey] *)

Section RootKey.

Implicit Types (this : Browser) (v : value) (path : string).

(** A write along a walk that may pass: the call returns and the value is
    there. *)
Lemma setRootKey_writes this path v force :
  DO.walk true (sessionParameters this) (DO.split path) = true →
  v ≠ VUndefined →
  default_arg true force
  || String.eqb (typeof (DO.get (sessionParameters this) path)) "undefined"
  = true →
  ∃ sp, setRootKey this path v force = Return (with_sessionParameters this sp)
    ∧ DO.get sp path = v
    ∧ DO.walk false sp (DO.split path) = true.
Proof.
  intros Hwalk Hv Hcond.
  destruct (set_at_walk _ (sessionParameters this) v Hwalk)
    as (sp & Hset & Hget & Hwalk').
  rewrite <- (set_defined _ _ _ Hv) in Hset.
  unfold setRootKey. rewrite Hcond, Hset. eauto.
Qed.

End RootKey.

(** C5, as the claim has it, fails for [undefined] as the second value,
    which is not written, and for the path [__proto__], under which an
    assignment sets no property: in neither case is the root-level value at
    the path the second value after the two calls. *)
Lemma setRootKey_last_write_may_not_show :
  ¬ (∀ (this : Browser) (p : string) (v1 v2 : value),
        DO.walk true (getSessionParameters this) (DO.split p) = true →
        DO.get
          (getSessionParameters
             (state_of (setRootKey (state_of (setRootKey this p v1 None)) p v2 None)))
          p = v2)
  ∧ ¬ (∀ (this : Browser) (p : string) (v1 v2 : value),
          v1 ≠ VUndefined → v2 ≠ VUndefined →
          DO.get
            (getSessionParameters
               (state_of (setRootKey (state_of (setRootKey this p v1 None)) p v2 None)))
            p = v2).
Proof.
  split; intros H.
  - specialize (H constructor "login" (VStr "x") VUndefined eq_refl).
    vm_compute in H. discriminate H.
  - assert (VNum 1 ≠ VUndefined) as H1 by discriminate.
    assert (VNum 2 ≠ VUndefined) as H2 by discriminate.
    specialize (H constructor "__proto__" (VNum 1) (VNum 2) H1 H2).
    vm_compute in H. discriminate H.
Qed.

(** C5, amended: for every variant, every root path [p] whose walk in the
    document goes through mappings, scalars or nothing (no sequence, no
    [null]) and has no segment that is a name every object inherits, and
    all values [v1], [v2] other than [undefined]: [setRootKey(p, v1)] with
    [force] omitted returns and the root-level value at [p] is [v1], and a
    following [setRootKey(p, v2)] with [force] omitted returns and leaves
    the root-level value at [p] equal to [v2]: the omitted [force] is true,
    the last write wins. *)
Theorem setRootKey_last_write_wins (this : Browser) (p : string)
    (v1 v2 : value) :
  DO.walk true (getSessionParameters this) (DO.split p) = true →
  v1 ≠ VUndefined → v2 ≠ VUndefined →
  ∃ this1 this2,
    setRootKey this p v1 None = Return this1
    ∧ DO.get (getSessionParameters this1) p = v1
    ∧ setRootKey this1 p v2 None = Return this2
    ∧ DO.get (getSessionParameters this2) p = v2.
Proof.
  unfold getSessionParameters. intros Hwalk Hv1 Hv2.
  destruct (setRootKey_writes this p v1 None Hwalk Hv1 eq_refl)
    as (sp1 & Hcall1 & Hget1 & Hwalk1).
  destruct (setRootKey_writes (with_sessionParameters this sp1) p v2 None
              (walk_scalars _ _ Hwalk1) Hv2 eq_refl)
    as (sp2 & Hcall2 & Hget2 & _).
  eexists _, _. repeat split; done.
Qed.

Lemma setRootKey_last_write_wins_witness :
  let this := state_of (setRootKey constructor "login" (VStr "x") None) in
  ∃ this1 this2,
    setRootKey this "login.user" (VStr "a") None = Return this1
    ∧ DO.get (getSessionParameters this1) "login.user" = VStr "a"
    ∧ setRootKey this1 "login.user" (VStr "b") None = Return this2
    ∧ DO.get (getSessionParameters this2) "login.user" = VStr "b".
Proof.
  intros this.
  apply (setRootKey_last_write_wins this "login.user" (VStr "a") (VStr "b")).
  - reflexivity.
  - discriminate.
  - discriminate.
Defined.

(** ** [setSpecificKey] and the path it checks *)

(** An empty string as [specificKey] does not pass the guard either. *)
Lemma setSpecificKey_empty_key (this : Browser) (path : string) (v : value)
    (force : option bool) :
  specificKey this = Some "" →
  setSpecificKey this path v force = Throw unsupported this.
Proof. intros H. unfold setSpecificKey. by rewrite H. Qed.

(** C10, as the claim has it, fails for a [specificKey] that is the empty
    string, which is not [null] and yet does not pass the guard, and for
    [undefined] as the value, which is not written: in both cases nothing
    is at the root-level path, and after the unforced call the value at
    [capabilities.alwaysMatch.k.p] is not the value passed. *)
Lemma setSpecificKey_may_not_write :
  ¬ (∀ (this : Browser) (k p : string) (v : value),
        specificKey this = Some k →
        DO.get (getSessionParameters this) (k ++ "." ++ p) = VUndefined →
        DO.get
          (getSessionParameters (state_of (setSpecificKey this p v (Some false))))
          ("capabilities.alwaysMatch." ++ k ++ "." ++ p) = v)
  ∧ ¬ (∀ (this : Browser) (k p : string) (v : value),
          specificKey this = Some k → k ≠ "" →
          DO.get (getSessionParameters this) (k ++ "." ++ p) = VUndefined →
          DO.get
            (getSessionParameters (state_of (setSpecificKey this p v (Some false))))
            ("capabilities.alwaysMatch." ++ k ++ "." ++ p) = v).
Proof.
  split; intros H.
  - specialize (H (with_specificKey constructor "") "" "w3c" (VBool true)
                  eq_refl eq_refl).
    vm_compute in H. discriminate H.
  - assert ("chromeOptions" ≠ "") as Hk by discriminate.
    specialize (H (with_specificKey
                     (state_of (setAlwaysMatchKey constructor "chromeOptions.w3c"
                                  (VBool true) None)) "chromeOptions")
                  "chromeOptions" "w3c" VUndefined eq_refl Hk eq_refl).
    vm_compute in H. discriminate H.
Qed.

(** C10, amended: on a variant whose [specificKey] is a non-empty string
    [k], [setSpecificKey(p, v)] with [force] false looks for an existing
    value at the root-level path [k.p], not at the path
    [capabilities.alwaysMatch.k.p] it writes to. When a value is at the
    root-level path, the call returns and changes nothing. When none is
    there, [v] is not [undefined], and the walks along both paths stay
    within mappings (the one it writes along may also replace a scalar),
    the call returns, as the forced call does, with [v] at
    [capabilities.alwaysMatch.k.p], whatever was at that path before. *)
Theorem setSpecificKey_checks_root_path (this : Browser) (k p : string)
    (v : value) :
  specificKey this = Some k → k ≠ "" →
  (DO.get (getSessionParameters this) (k ++ "." ++ p) ≠ VUndefined →
     setSpecificKey this p v (Some false) = Return this)
  ∧ (DO.get (getSessionParameters this) (k ++ "." ++ p) = VUndefined →
     DO.walk false (getSessionParameters this) (DO.split (k ++ "." ++ p)) = true →
     DO.walk true (getSessionParameters this)
       (DO.split ("capabilities.alwaysMatch." ++ k ++ "." ++ p)) = true →
     v ≠ VUndefined →
     ∃ this', setSpecificKey this p v (Some false) = Return this'
       ∧ setSpecificKey this p v (Some true) = Return this'
       ∧ DO.get (getSessionParameters this')
           ("capabilities.alwaysMatch." ++ k ++ "." ++ p) = v).
Proof.
  intros Hk Hne. unfold setSpecificKey, getSessionParameters.
  rewrite Hk, (nonempty_truthy k Hne). cbn [negb default_arg orb].
  split.
  - intros H. by rewrite (typeof_defined _ H).
  - intros H _ Hwalk Hv. rewrite H. cbn [typeof String.eqb Ascii.eqb Bool.eqb].
    destruct (set_at_walk _ (sessionParameters this) v Hwalk)
      as (sp & Hset & Hget & _).
    rewrite <- (set_defined _ _ _ Hv) in Hset.
    rewrite Hset. simpl. eauto.
Qed.

Lemma setSpecificKey_checks_root_path_witness :
  let chrome :=
    with_specificKey
      (state_of (setAlwaysMatchKey constructor "chromeOptions.w3c" (VBool true) None))
      "chromeOptions" in
  let rooted := state_of (setRootKey chrome "chromeOptions.w3c" (VNum 1) None) in
  setSpecificKey rooted "w3c" (VBool false) (Some false) = Return rooted
  ∧ ∃ this', setSpecificKey chrome "w3c" (VBool false) (Some false) = Return this'
      ∧ setSpecificKey chrome "w3c" (VBool false) (Some true) = Return this'
      ∧ DO.get (getSessionParameters this') "capabilities.alwaysMatch.chromeOptions.w3c"
        = VBool false.
Proof.
  intros chrome rooted. split.
  - apply (setSpecificKey_checks_root_path rooted "chromeOptions" "w3c" (VBool false)).
    + reflexivity.
    + discriminate.
    + vm_compute. discriminate.
  - apply (setSpecificKey_checks_root_path chrome "chromeOptions" "w3c" (VBool false)).
    + reflexivity.
    + discriminate.
    + reflexivity.
    + reflexivity.
    + reflexivity.
    + discriminate.
Defined.

(** ** The containers under a sequence of calls *)

Section Containers.

Implicit Types (this : Browser) (sp v : value) (path k : string)
  (segments : list string).

Lemma split_target k path :
  DO.split ("capabilities.alwaysMatch." ++ k ++ "." ++ path)
  = "capabilities" :: "alwaysMatch" :: DO.split (k ++ "." ++ path).
Proof. reflexivity. Qed.

(** A deep write that does not end at a container keeps both. *)
Lemma set_at_keeps_shape sp segments v sp' :
  shape sp → DO.set_at sp segments v = Some sp' →
  segments ≠ [] →
  segments ≠ ["capabilities"] →
  segments ≠ ["capabilities"; "alwaysMatch"] →
  segments ≠ ["capabilities"; "firstMatch"] →
  shape sp'.
Proof.
  intros (root & caps & am & fm & -> & Hc & Ham & Hfm) Hset H0 H1 H2 H3.
  destruct segments as [|k1 rest1]; [done|]. simpl in Hset.
  destruct (String.eqb k1 "__proto__").
  { injection Hset as <-. by exists root, caps, am, fm. }
  destruct (DO.set_at (DO.child root k1) rest1 v) as [c1|] eqn:E1; [|done].
  injection Hset as <-.
  destruct (decide (k1 = "capabilities")) as [->|Hk1]; cycle 1.
  { exists (<[k1 := c1]> root), caps, am, fm. by simplify_map_eq. }
  rewrite (child_obj _ _ _ Hc) in E1.
  destruct rest1 as [|k2 rest2]; [done|]. simpl in E1.
  destruct (String.eqb k2 "__proto__").
  { injection E1 as <-.
    exists (<["capabilities" := VObj caps]> root), caps, am, fm.
    by simplify_map_eq. }
  destruct (DO.set_at (DO.child caps k2) rest2 v) as [c2|] eqn:E2; [|done].
  injection E1 as <-.
  destruct (decide (k2 = "alwaysMatch")) as [->|Hk2].
  { rewrite (child_obj _ _ _ Ham) in E2.
    destruct rest2 as [|k3 rest3]; [done|].
    destruct (set_at_obj _ _ _ _ _ E2) as [[_ [am' ->]]|[[items ?] _]]; [|done].
    exists (<["capabilities" := VObj (<["alwaysMatch" := VObj am']> caps)]> root),
      (<["alwaysMatch" := VObj am']> caps), am', fm.
    by simplify_map_eq. }
  destruct (decide (k2 = "firstMatch")) as [->|Hk3].
  { unfold DO.child in E2. rewrite Hfm in E2.
    destruct rest2 as [|k3 rest3]; [done|]. simpl in E2. injection E2 as <-.
    exists (<["capabilities" := VObj (<["firstMatch" := VArr fm]> caps)]> root),
      (<["firstMatch" := VArr fm]> caps), am, fm.
    by simplify_map_eq. }
  exists (<["capabilities" := VObj (<[k2 := c2]> caps)]> root),
    (<[k2 := c2]> caps), am, fm.
  by simplify_map_eq.
Qed.

Lemma names_container_split path :
  names_container path = false →
  DO.split path ≠ ["capabilities"]
  ∧ DO.split path ≠ ["capabilities"; "alwaysMatch"]
  ∧ DO.split path ≠ ["capabilities"; "firstMatch"].
Proof.
  unfold names_container. rewrite !orb_false_iff, !String.eqb_neq.
  intros [[H1 H2] H3].
  repeat split; intros E.
  - apply H1, split_inj. by rewrite E.
  - apply H2, split_inj. by rewrite E.
  - apply H3, split_inj. by rewrite E.
Qed.

(** In a document with its containers, something is at each of the three
    paths. *)
Lemma names_container_defined sp path :
  shape sp → names_container path = true →
  String.eqb (typeof (DO.get sp path)) "undefined" = false.
Proof.
  intros (root & caps & am & fm & -> & Hc & Ham & Hfm).
  unfold names_container. rewrite !orb_true_iff, !String.eqb_eq.
  intros [[->| ->]| ->]; unfold DO.get; simpl.
  - by rewrite Hc.
  - by rewrite Hc, Ham.
  - by rewrite Hc, Hfm.
Qed.

(** One call that does not replace a container keeps both. *)
Lemma perform_keeps_containers this (c : call) :
  well_formed this = true → replaces_container c = false →
  well_formed (state_of (perform this c)) = true.
Proof.
  intros Hwf Hc. pose proof Hwf as Hshape. apply well_formed_shape in Hshape.
  destruct c as [path v force|n v force|path v force|path v force]; simpl.
  - unfold setAlwaysMatchKey.
    destruct (alwaysMatch this) as [am|] eqn:Ham; [|done].
    destruct (_ || _); [|done].
    destruct (DO.set am path v) as [am'|] eqn:Hset; [|done]. simpl.
    apply well_formed_shape, shape_with_capability; [done|]. left.
    split; [done|].
    destruct (split_cons path) as (k & rest & Hp).
    unfold DO.set in Hset. rewrite Hp in Hset.
    assert (DO.set_at am (k :: rest) v = Some am') as Hset'
      by (by destruct v).
    unfold well_formed in Hwf. rewrite Ham in Hwf.
    destruct am as [| | | | | |fields|]; try done.
    destruct (set_at_obj _ _ _ _ _ Hset') as [[_ ?]|[[items ?] _]]; done.
  - destruct (default_arg false force) eqn:Hf; cycle 1.
    { by rewrite addFirstMatch_unforced. }
    unfold addFirstMatch. rewrite Hf.
    destruct (firstMatch this) as [fm|] eqn:Hfm; [|done].
    destruct fm as [| | | | |items| |]; try done. simpl.
    apply well_formed_shape, shape_with_capability; [done|]. right. eauto.
  - unfold setRootKey.
    destruct (names_container path) eqn:Hn.
    + (* at a container path: nothing is written *)
      rewrite (names_container_defined _ _ Hshape Hn), orb_false_r.
      simpl in Hc. rewrite Hn in Hc. cbn [andb] in Hc.
      destruct (default_arg true force); [|done].
      cbn [andb] in Hc. apply negb_false_iff, typeof_undefined in Hc.
      by subst v.
    + destruct (_ || _); [|done].
      destruct (DO.set (sessionParameters this) path v) as [sp|] eqn:Hset; [|done].
      simpl. apply well_formed_shape. simpl.
      apply names_container_split in Hn. destruct Hn as (H1 & H2 & H3).
      assert (DO.set_at (sessionParameters this) (DO.split path) v = Some sp)
        as Hset' by (unfold DO.set in Hset; by destruct v).
      apply (set_at_keeps_shape _ _ _ _ Hshape Hset'); try done.
      apply split_nonempty.
  - unfold setSpecificKey.
    destruct (specificKey this) as [k|]; [|done].
    destruct (negb _); [done|].
    destruct (_ || _); [|done].
    destruct (DO.set (sessionParameters this) _ v) as [sp|] eqn:Hset; [|done].
    simpl. apply well_formed_shape. simpl.
    assert (DO.set_at (sessionParameters this)
              (DO.split ("capabilities.alwaysMatch." ++ k ++ "." ++ path)) v
            = Some sp) as Hset' by (unfold DO.set in Hset; by destruct v).
    rewrite split_target in Hset'.
    destruct (split_cons (k ++ "." ++ path)) as (k3 & rest3 & E).
    rewrite E in Hset'.
    by apply (set_at_keeps_shape _ _ _ _ Hshape Hset').
Qed.

(** A sequence of calls none of which replaces a container keeps both. *)
Lemma perform_all_keeps_containers this (cs : list call) :
  well_formed this = true →
  forallb (λ c, negb (replaces_container c)) cs = true →
  well_formed (perform_all this cs) = true.
Proof.
  revert this. induction cs as [|c rest IH]; intros this Hwf Hcs; simpl in *.
  - done.
  - apply andb_true_iff in Hcs as [Hc Hrest].
    apply IH; [|done]. apply perform_keeps_containers; [done|].
    by apply negb_true_iff.
Qed.

(** A forced [setRootKey] of a primitive at one of the three paths leaves a
    document without one of the containers. *)
Lemma perform_replaces_container this (c : call) :
  well_formed this = true →
  primitive (call_value c) = true → replaces_container c = true →
  well_formed (state_of (perform this c)) = false.
Proof.
  intros Hwf Hv Hc.
  destruct c as [path v force|n v force|path v force|path v force]; try done.
  simpl in *. apply andb_true_iff in Hc as [Hc Hu].
  apply andb_true_iff in Hc as [Hn Hf].
  apply well_formed_shape in Hwf.
  destruct Hwf as (root & caps & am & fm & Hsp & Hcaps & Ham & Hfm).
  unfold setRootKey. rewrite Hf. cbn [orb]. rewrite Hsp.
  unfold names_container in Hn. rewrite !orb_true_iff, !String.eqb_eq in Hn.
  destruct Hn as [[->| ->]| ->]; unfold DO.set.
  - destruct v; try done; vm_compute in Hu; try done;
      unfold well_formed, alwaysMatch, firstMatch, capability, capabilities;
      simpl; by rewrite lookup_insert_eq.
  - destruct v; try done; vm_compute in Hu; try done;
      unfold well_formed, alwaysMatch, firstMatch, capability, capabilities;
      cbn -[insert lookup]; rewrite (child_obj _ _ _ Hcaps);
      cbn -[insert lookup]; rewrite !lookup_insert_eq;
      cbn -[insert lookup]; by rewrite !lookup_insert_eq.
  - destruct v; try done; vm_compute in Hu; try done;
      unfold well_formed, alwaysMatch, firstMatch, capability, capabilities;
      cbn -[insert lookup]; rewrite (child_obj _ _ _ Hcaps);
      cbn -[insert lookup]; rewrite !lookup_insert_eq;
      cbn -[insert lookup]; rewrite lookup_insert_ne by done;
      rewrite Ham; by rewrite !lookup_insert_eq.
Qed.

End Containers.

(** C8, as the claim has it, fails: on a new variant the single call
    [setRootKey('capabilities', 1)] leaves a document without the two
    containers. *)
Lemma setRootKey_replaces_containers :
  ¬ (∀ (this : Browser) (cs : list call),
        well_formed this = true → well_formed (perform_all this cs) = true).
Proof.
  intros H.
  specialize (H constructor [CallSetRootKey "capabilities" (VNum 1) None] eq_refl).
  vm_compute in H. discriminate H.
Qed.

(** C8, amended: take a variant whose document is as the constructor leaves
    it, and a finite sequence of calls to [setAlwaysMatchKey],
    [addFirstMatch], [setRootKey] and [setSpecificKey] whose values are
    primitives, calls that throw included. If no call of the sequence is a
    [setRootKey] with [force] true or omitted and a value other than
    [undefined] at the path [capabilities], [capabilities.alwaysMatch] or
    [capabilities.firstMatch], then after it [capabilities.alwaysMatch] is
    there and is a mapping and [capabilities.firstMatch] is there and is a
    sequence; and one more call that is such a [setRootKey] leaves a
    document in which that is no longer so. *)
Theorem containers_kept (this : Browser) (cs : list call) (c : call) :
  sessionParameters this = sessionParameters constructor →
  forallb (λ c, primitive (call_value c)) cs = true →
  forallb (λ c, negb (replaces_container c)) cs = true →
  well_formed (perform_all this cs) = true
  ∧ (primitive (call_value c) = true → replaces_container c = true →
     well_formed (state_of (perform (perform_all this cs) c)) = false).
Proof.
  intros Hsp _ Hcs.
  assert (well_formed this = true) as Hwf.
  { unfold well_formed, alwaysMatch, firstMatch, capability, capabilities.
    by rewrite Hsp. }
  pose proof (perform_all_keeps_containers this cs Hwf Hcs) as Hafter.
  split; [done|]. by apply perform_replaces_container.
Qed.

Lemma containers_kept_witness :
  let this := with_specificKey constructor "chromeOptions" in
  let cs :=
    [ CallSetSpecificKey "w3c" (VBool true) None;
      CallSetAlwaysMatchKey "timeouts.implicit" (VNum 10000) None;
      CallAddFirstMatch "browserName" (VStr "chrome") (Some true);
      CallSetRootKey "capabilities.alwaysMatch.platformName" (VStr "linux") None;
      CallSetRootKey "capabilities.firstMatch" (VNum 1) (Some false);
      CallSetRootKey "capabilities.alwaysMatch" VUndefined None;
      CallSetRootKey "login" (VStr "blah") None ] in
  well_formed (perform_all this cs) = true
  ∧ well_formed
      (state_of
         (perform (perform_all this cs)
            (CallSetRootKey "capabilities.firstMatch" VNull None)))
    = false.
Proof.
  intros this cs.
  destruct (containers_kept this cs
              (CallSetRootKey "capabilities.firstMatch" VNull None))
    as [Hkept Hbroken].
  - reflexivity.
  - reflexivity.
  - reflexivity.
  - split; [exact Hkept|]. apply Hbroken; reflexivity.
Defined.

(** ** Paths with empty segments *)

Section AnyPath.

Implicit Types (v : value) (path k : string) (segments : list string).

Lemma forallb_app_true {A} (f : A → bool) (l1 l2 : list A) :
  forallb f l1 = true → forallb f l2 = true → forallb f (l1 ++ l2)%list = true.
Proof. intros H1 H2. rewrite forallb_app. by rewrite H1, H2. Qed.

(** On a new variant [setAlwaysMatchKey] writes at any path of segments
    that are not inherited names. *)
Lemma new_setAlwaysMatchKey path v :
  forallb (λ s, negb (DO.inherited s)) (DO.split path) = true →
  v ≠ VUndefined →
  ∃ this', setAlwaysMatchKey constructor path v None = Return this'
    ∧ alwaysMatch_at this' path = v.
Proof.
  intros Hsegs Hv.
  destruct (setAlwaysMatchKey_writes constructor path v (VObj ∅) None)
    as (am' & Hcall & Ham' & Hget & _).
  - reflexivity.
  - by rewrite walk_empty.
  - done.
  - unfold DO.get.
    by rewrite (get_at_empty _ Hsegs (split_nonempty path)).
  - eexists. split; [done|]. unfold alwaysMatch_at. by rewrite Ham'.
Qed.

(** On a new variant that has a specific key [setSpecificKey] writes at
    any path of segments that are not inherited names. *)
Lemma new_setSpecificKey k path v :
  k ≠ "" →
  forallb (λ s, negb (DO.inherited s)) (DO.split k) = true →
  forallb (λ s, negb (DO.inherited s)) (DO.split path) = true →
  v ≠ VUndefined →
  ∃ this', setSpecificKey (with_specificKey constructor k) path v None
           = Return this'
    ∧ DO.get (getSessionParameters this')
        ("capabilities.alwaysMatch." ++ k ++ "." ++ path) = v.
Proof.
  intros Hk Hks Hsegs Hv. unfold setSpecificKey, getSessionParameters.
  cbn [specificKey with_specificKey default_arg orb].
  rewrite (nonempty_truthy k Hk). cbn [negb].
  destruct (set_at_walk
              (DO.split ("capabilities.alwaysMatch." ++ k ++ "." ++ path))
              (sessionParameters constructor) v)
    as (sp & Hset & Hget & _).
  { rewrite split_target.
    pose proof (forallb_app_true _ _ _ Hks Hsegs) as Hall.
    rewrite <- split_app_dot in Hall.
    destruct (split_cons (k ++ "." ++ path)) as (k3 & rest3 & E).
    rewrite E in *.
    cbn [DO.walk].
    change (DO.inherited "capabilities") with false.
    change (DO.inherited "alwaysMatch") with false.
    cbn [negb andb sessionParameters constructor].
    rewrite lookup_singleton_eq. cbn [DO.passable andb].
    unfold DO.child at 1. rewrite lookup_singleton_eq.
    rewrite lookup_insert_eq. cbn [DO.passable andb].
    unfold DO.child at 1. rewrite lookup_insert_eq.
    change (DO.walk true (VObj ∅) (k3 :: rest3) = true).
    by rewrite walk_empty. }
  rewrite <- (set_defined _ _ _ Hv) in Hset.
  cbn [sessionParameters with_specificKey]. rewrite Hset.
  eexists. split; [done|]. done.
Qed.

End AnyPath.

(** C9, as the claim has it, fails for each of the three setters: [a..b]
    has an empty segment, and there are calls with it that do not throw. *)
Lemma empty_segment_is_accepted :
  has_empty_segment "a..b" = true
  ∧ ¬ (∀ this path v force, has_empty_segment path = true →
          ∃ e this', setAlwaysMatchKey this path v force = Throw e this')
  ∧ ¬ (∀ this path v force, has_empty_segment path = true →
          ∃ e this', setRootKey this path v force = Throw e this')
  ∧ ¬ (∀ this path v force, has_empty_segment path = true →
          ∃ e this', setSpecificKey this path v force = Throw e this').
Proof.
  split; [reflexivity|].
  repeat split; intros H.
  - destruct (H constructor "a..b" (VNum 1) None eq_refl) as (e & this' & E).
    vm_compute in E. discriminate E.
  - destruct (H constructor "a..b" (VNum 1) None eq_refl) as (e & this' & E).
    vm_compute in E. discriminate E.
  - destruct (H (with_specificKey constructor "chromeOptions") "a..b" (VNum 1)
                None eq_refl) as (e & this' & E).
    vm_compute in E. discriminate E.
Qed.

(** The structure such a call builds: the empty segment is a key. *)
Example empty_segment_is_a_key :
  setAlwaysMatchKey constructor "a..b" (VNum 1) None
  = Return (with_capability constructor "alwaysMatch"
              (VObj {[ "a" := VObj {[ "" := VObj {[ "b" := VNum 1 ]} ]} ]})).
Proof. reflexivity. Qed.

(** C9, amended: no setter rejects a path with an empty segment. For every
    path that has an empty segment and no segment that is a name every
    object inherits, and every value other than [undefined]: on a new
    variant [setAlwaysMatchKey] returns, and the value is then read at that
    path under [capabilities.alwaysMatch]; [setRootKey] returns, and the
    value is then read at that path at the root, when the walk along the
    path in the new document does not go through [capabilities.firstMatch];
    and on a new variant that has a non-empty specific key [k] of such
    segments, [setSpecificKey] returns, and the value is then read at
    [capabilities.alwaysMatch.k.<path>]. *)
Theorem setters_accept_empty_segments (path : string) (v : value) :
  has_empty_segment path = true →
  forallb (λ s, negb (DO.inherited s)) (DO.split path) = true →
  v ≠ VUndefined →
  (∃ this', setAlwaysMatchKey constructor path v None = Return this'
     ∧ alwaysMatch_at this' path = v)
  ∧ (DO.walk true (getSessionParameters constructor) (DO.split path) = true →
     ∃ this', setRootKey constructor path v None = Return this'
       ∧ DO.get (getSessionParameters this') path = v)
  ∧ (∀ k, k ≠ "" →
     forallb (λ s, negb (DO.inherited s)) (DO.split k) = true →
     ∃ this', setSpecificKey (with_specificKey constructor k) path v None
              = Return this'
       ∧ DO.get (getSessionParameters this')
           ("capabilities.alwaysMatch." ++ k ++ "." ++ path) = v).
Proof.
  intros _ Hsegs Hv.
  split; [by apply new_setAlwaysMatchKey|].
  split.
  - intros Hwalk.
    destruct (setRootKey_writes constructor path v None Hwalk Hv eq_refl)
      as (sp & Hcall & Hget & _).
    eexists. split; [done|]. done.
  - intros k Hk Hks. by apply new_setSpecificKey.
Qed.

Lemma setters_accept_empty_segments_witness :
  (∃ this', setAlwaysMatchKey constructor "a..b" (VNum 1) None = Return this'
     ∧ alwaysMatch_at this' "a..b" = VNum 1)
  ∧ (∃ this', setRootKey constructor "a..b" (VNum 1) None = Return this'
       ∧ DO.get (getSessionParameters this') "a..b" = VNum 1)
  ∧ (∃ this', setSpecificKey (with_specificKey constructor "chromeOptions")
                "a..b" (VNum 1) None = Return this'
       ∧ DO.get (getSessionParameters this')
           "capabilities.alwaysMatch.chromeOptions.a..b" = VNum 1).
Proof.
  assert (VNum 1 ≠ VUndefined) as Hv by discriminate.
  destruct (setters_accept_empty_segments "a..b" (VNum 1) eq_refl eq_refl Hv)
    as (Ha & Hr & Hs).
  split; [exact Ha|]. split.
  - apply Hr. reflexivity.
  - apply (Hs "chromeOptions"); [discriminate|reflexivity].
Defined.

(** ** The key table *)

Section KeyTable.

Implicit Types (n : string) (code : list Z).

Lemma KEY_names_differ : NoDup KEY_entries.*1.
Proof. apply (bool_decide_unpack _). by vm_compute. Qed.

Lemma KEY_lookup n code : KEY !! n = Some code ↔ (n, code) ∈ KEY_entries.
Proof. symmetry. apply elem_of_list_to_map, KEY_names_differ. Qed.

End KeyTable.

(** X12: every string the key table holds is one UTF-16 code unit, between
    U+E000 and U+E040, for each of its 61 names. *)
Theorem KEY_codes_in_range (n : string) (code : list Z) :
  KEY !! n = Some code →
  length KEY_entries = 61%nat
  ∧ ∃ c, code = [c] ∧ 0xE000 ≤ c ≤ 0xE040.
Proof.
  intros H. split; [reflexivity|].
  apply KEY_lookup in H.
  assert (Forall (λ e, ∃ c, e.2 = [c] ∧ 0xE000 ≤ c ≤ 0xE040) KEY_entries) as HF.
  { unfold KEY_entries. repeat (constructor; [eexists; split; [reflexivity|lia]|]).
    constructor. }
  rewrite Forall_forall in HF. apply (HF (n, code) H).
Qed.

Lemma KEY_codes_in_range_witness :
  length KEY_entries = 61%nat ∧ ∃ c, [0xE007] = [c] ∧ 0xE000 ≤ c ≤ 0xE040.
Proof. apply (KEY_codes_in_range "ENTER" [0xE007]). reflexivity. Defined.

(** X13: two different names of the key table hold the same string only
    where one is an alias of the other: an arrow key under its short name,
    or the command key as META; and each of those pairs does hold one
    string. *)
Theorem KEY_same_code_is_alias (n1 n2 : string) (code : list Z) :
  KEY !! n1 = Some code → KEY !! n2 = Some code →
  (n1 = n2 ∨ (n1, n2) ∈ KEY_aliases ∨ (n2, n1) ∈ KEY_aliases)
  ∧ Forall (λ ab, is_Some (KEY !! ab.1) ∧ KEY !! ab.1 = KEY !! ab.2) KEY_aliases.
Proof.
  intros H1 H2. split.
  - apply KEY_lookup in H1, H2.
    assert (Forall (λ e1, Forall (λ e2 : string * list Z,
              e1.2 = e2.2 →
              e1.1 = e2.1 ∨ (e1.1, e2.1) ∈ KEY_aliases ∨ (e2.1, e1.1) ∈ KEY_aliases)
              KEY_entries) KEY_entries) as HF.
    { apply (bool_decide_unpack _). by vm_compute. }
    rewrite Forall_forall in HF. specialize (HF _ H1).
    rewrite Forall_forall in HF. by apply (HF _ H2).
  - apply (bool_decide_unpack _). by vm_compute.
Qed.

Lemma KEY_same_code_is_alias_witness :
  ("LEFT" = "ARROW_LEFT" ∨ ("LEFT", "ARROW_LEFT") ∈ KEY_aliases
   ∨ ("ARROW_LEFT", "LEFT") ∈ KEY_aliases)
  ∧ Forall (λ ab, is_Some (KEY !! ab.1) ∧ KEY !! ab.1 = KEY !! ab.2) KEY_aliases.
Proof.
  apply (KEY_same_code_is_alias "LEFT" "ARROW_LEFT" [0xE012]); reflexivity.
Defined.

(** ** What the configuration calls leave alone *)

Section Fields.

Implicit Types (this : Browser) (v : value) (k p : string) (c : call).

Lemma with_capability_fields this k v :
  name (with_capability this k v) = name this
  ∧ specificKey (with_capability this k v) = specificKey this
  ∧ executable (with_capability this k v) = executable this
  ∧ _executable (with_capability this k v) = _executable this.
Proof. unfold with_capability. by repeat case_match. Qed.

Lemma perform_fields this c :
  name (state_of (perform this c)) = name this
  ∧ specificKey (state_of (perform this c)) = specificKey this
  ∧ executable (state_of (perform this c)) = executable this
  ∧ _executable (state_of (perform this c)) = _executable this.
Proof.
  destruct c as [path v force|n v force|path v force|path v force]; simpl;
    unfold setAlwaysMatchKey, addFirstMatch, setRootKey, setSpecificKey;
    repeat case_match; simpl; try done; apply with_capability_fields.
Qed.

Lemma with_capability_setExecutable this k v p :
  with_capability (setExecutable this p) k v
  = setExecutable (with_capability this k v) p.
Proof. unfold with_capability. simpl. by repeat case_match. Qed.

(** The result of a call with the executable set afterwards. *)
Lemma perform_setExecutable this p c :
  state_of (perform (setExecutable this p) c)
  = setExecutable (state_of (perform this c)) p.
Proof.
  destruct c as [path v force|n v force|path v force|path v force]; simpl;
    unfold setAlwaysMatchKey, addFirstMatch, setRootKey, setSpecificKey,
      alwaysMatch, firstMatch, capability, capabilities; simpl;
    repeat case_match; simpl; try done; apply with_capability_setExecutable.
Qed.

End Fields.

(** X3: no sequence of configuration calls changes the variant's [name],
    [specificKey], [executable] or [_executable]; calls that throw are
    included. *)
Theorem calls_keep_fields (this : Browser) (cs : list call) :
  name (perform_all this cs) = name this
  ∧ specificKey (perform_all this cs) = specificKey this
  ∧ executable (perform_all this cs) = executable this
  ∧ _executable (perform_all this cs) = _executable this.
Proof.
  revert this. induction cs as [|c rest IH]; intros this; simpl; [done|].
  destruct (IH (state_of (perform this c))) as (-> & -> & -> & ->).
  apply perform_fields.
Qed.

(** X4: [setExecutable] and the configuration calls do not see each other:
    setting the executable before a sequence of calls or after it leaves
    the same object, the document is what it would be without
    [setExecutable], and of two [setExecutable] calls the later one
    stands. *)
Theorem setExecutable_commutes (this : Browser) (p q : string) (cs : list call) :
  perform_all (setExecutable this p) cs = setExecutable (perform_all this cs) p
  ∧ getSessionParameters (perform_all (setExecutable this p) cs)
    = getSessionParameters (perform_all this cs)
  ∧ setExecutable (setExecutable this p) q = setExecutable this q.
Proof.
  assert (∀ this, perform_all (setExecutable this p) cs
                  = setExecutable (perform_all this cs) p) as H.
  { induction cs as [|c rest IH]; intros t; simpl; [done|].
    by rewrite perform_setExecutable, IH. }
  split; [apply H|]. split; [by rewrite H|done].
Qed.

(** ** A value that is there, and a document that lost its capabilities *)

(** X5: with [force] omitted, [setAlwaysMatchKey] returns without a change
    on every variant that holds a value at the path under
    [capabilities.alwaysMatch]; with [force] false, [setRootKey] returns
    without a change on every variant that holds a value at the root
    path. *)
Theorem unforced_keeps_existing (this : Browser) (p : string) (v : value) :
  (alwaysMatch_at this p ≠ VUndefined →
     setAlwaysMatchKey this p v None = Return this)
  ∧ (DO.get (getSessionParameters this) p ≠ VUndefined →
     setRootKey this p v (Some false) = Return this).
Proof.
  split.
  - by apply setAlwaysMatchKey_kept.
  - intros H. unfold setRootKey, getSessionParameters in *. simpl.
    by rewrite (typeof_defined _ H).
Qed.

Lemma unforced_keeps_existing_witness :
  let chrome :=
    state_of (setAlwaysMatchKey constructor "chromeOptions.w3c" (VBool true) None) in
  setAlwaysMatchKey chrome "chromeOptions.w3c" (VBool false) None = Return chrome
  ∧ setRootKey chrome "capabilities.alwaysMatch.chromeOptions" VNull (Some false)
    = Return chrome.
Proof.
  intros chrome. split.
  - apply (unforced_keeps_existing chrome "chromeOptions.w3c" (VBool false)).
    vm_compute. discriminate.
  - apply (unforced_keeps_existing chrome "capabilities.alwaysMatch.chromeOptions" VNull).
    vm_compute. discriminate.
Defined.

(** X11: once [setRootKey('capabilities', null)] has returned, every
    [setAlwaysMatchKey] call and every [addFirstMatch] call, forced or
    not, throws a TypeError and changes nothing. *)
Theorem null_capabilities_throw (this this' : Browser) :
  setRootKey this "capabilities" VNull None = Return this' →
  ∀ (p : string) (v : value) (force : option bool),
    setAlwaysMatchKey this' p v force = Throw TypeError this'
    ∧ addFirstMatch this' p v force = Throw TypeError this'.
Proof.
  unfold setRootKey, DO.set. simpl.
  destruct (sessionParameters this) as [| | | | |items|root|] eqn:Hsp; try done;
    intros [= <-] p v force.
  - unfold setAlwaysMatchKey, addFirstMatch, alwaysMatch, firstMatch, capability,
      capabilities, member. by simpl.
  - unfold setAlwaysMatchKey, addFirstMatch, alwaysMatch, firstMatch, capability,
      capabilities, member. simpl.
    by rewrite lookup_insert_eq.
Qed.

Lemma null_capabilities_throw_witness :
  let broken :=
    with_sessionParameters constructor (VObj {[ "capabilities" := VNull ]}) in
  setAlwaysMatchKey broken "platformName" (VStr "linux") (Some true)
  = Throw TypeError broken
  ∧ addFirstMatch broken "platformName" (VStr "linux") (Some true)
    = Throw TypeError broken.
Proof.
  apply (null_capabilities_throw constructor). reflexivity.
Defined.


(** ** Three ways to write under [capabilities.alwaysMatch] *)

Section UnderAlwaysMatch.

Implicit Types (this : Browser) (v : value) (k p path : string).

Lemma split_under_alwaysMatch path :
  DO.split ("capabilities.alwaysMatch." ++ path)
  = "capabilities" :: "alwaysMatch" :: DO.split path.
Proof. reflexivity. Qed.

(** Reading through the root what [alwaysMatch] holds. *)
Lemma get_under_alwaysMatch this am path :
  alwaysMatch this = Some (VObj am) →
  DO.get (sessionParameters this) ("capabilities.alwaysMatch." ++ path)
  = DO.get (VObj am) path.
Proof.
  intros H. destruct (capability_inv _ _ _ H) as (root & caps & Hsp & Hc & Ham);
    [done|].
  unfold DO.get. rewrite split_under_alwaysMatch, Hsp. simpl.
  by rewrite Hc, Ham.
Qed.

(** Writing through the root into what [alwaysMatch] holds. *)
Lemma set_under_alwaysMatch this am path v :
  alwaysMatch this = Some (VObj am) →
  match DO.set (sessionParameters this) ("capabilities.alwaysMatch." ++ path) v with
  | Some sp => Return (with_sessionParameters this sp)
  | None => Throw DOError this
  end
  = match DO.set (VObj am) path v with
    | Some am' => Return (with_capability this "alwaysMatch" am')
    | None => Throw DOError this
    end.
Proof.
  intros H. destruct (capability_inv _ _ _ H) as (root & caps & Hsp & Hc & Ham);
    [done|].
  unfold DO.set, with_capability.
  destruct v; try done;
    rewrite split_under_alwaysMatch, Hsp, Hc;
    cbn [DO.set_at];
    change (String.eqb "capabilities" "__proto__") with false;
    change (String.eqb "alwaysMatch" "__proto__") with false;
    cbn iota;
    rewrite (child_obj _ _ _ Hc), (child_obj _ _ _ Ham);
    by destruct (DO.set_at (VObj am) (DO.split path) _).
Qed.

Lemma well_formed_alwaysMatch this :
  well_formed this = true → ∃ am, alwaysMatch this = Some (VObj am).
Proof.
  unfold well_formed.
  destruct (alwaysMatch this) as [[| | | | | |am|]|]; try done. eauto.
Qed.

End UnderAlwaysMatch.

(** X7: on a variant whose document has its two containers, [setRootKey]
    with the path [capabilities.alwaysMatch.<p>] does what
    [setAlwaysMatchKey] does with the path [p] and the same [force]: the
    same return or throw, the same object left. *)
Theorem setRootKey_under_alwaysMatch (this : Browser) (p : string) (v : value)
    (force : bool) :
  well_formed this = true →
  setRootKey this ("capabilities.alwaysMatch." ++ p) v (Some force)
  = setAlwaysMatchKey this p v (Some force).
Proof.
  intros Hwf. destruct (well_formed_alwaysMatch _ Hwf) as [am Ham].
  unfold setRootKey, setAlwaysMatchKey. rewrite Ham.
  rewrite (get_under_alwaysMatch _ _ _ Ham). simpl.
  destruct (force || _); [|done].
  by apply set_under_alwaysMatch.
Qed.

Lemma setRootKey_under_alwaysMatch_witness :
  setRootKey constructor "capabilities.alwaysMatch.timeouts.implicit"
    (VNum 10000) (Some false)
  = setAlwaysMatchKey constructor "timeouts.implicit" (VNum 10000) (Some false).
Proof.
  apply (setRootKey_under_alwaysMatch constructor "timeouts.implicit"). reflexivity.
Defined.

(** X6: on a variant whose document has its two containers and that has a
    specific key [k], [setSpecificKey(p, v)] with [force] omitted or true
    does what the forced [setAlwaysMatchKey] does with the path [k.p]: the
    same return or throw, the same object left. A dot in [k] is a path
    separator like any other. *)
Theorem setSpecificKey_is_alwaysMatch_write (this : Browser) (k p : string)
    (v : value) :
  well_formed this = true →
  specificKey this = Some k → k ≠ "" →
  setSpecificKey this p v None
  = setAlwaysMatchKey this (k ++ "." ++ p) v (Some true)
  ∧ setSpecificKey this p v (Some true)
    = setAlwaysMatchKey this (k ++ "." ++ p) v (Some true).
Proof.
  intros Hwf Hk Hne. destruct (well_formed_alwaysMatch _ Hwf) as [am Ham].
  unfold setSpecificKey, setAlwaysMatchKey.
  rewrite Hk, (nonempty_truthy k Hne), Ham. simpl.
  split; by apply (set_under_alwaysMatch _ _ (k ++ "." ++ p)).
Qed.

Lemma setSpecificKey_is_alwaysMatch_write_witness :
  let firefox := with_specificKey constructor "moz:firefoxOptions" in
  setSpecificKey firefox "args" (VArr [VStr "-headless"]) None
  = setAlwaysMatchKey firefox "moz:firefoxOptions.args"
      (VArr [VStr "-headless"]) (Some true)
  ∧ setSpecificKey firefox "args" (VArr [VStr "-headless"]) (Some true)
    = setAlwaysMatchKey firefox "moz:firefoxOptions.args"
        (VArr [VStr "-headless"]) (Some true).
Proof.
  apply (setSpecificKey_is_alwaysMatch_write
           (with_specificKey constructor "moz:firefoxOptions")
           "moz:firefoxOptions" "args").
  - reflexivity.
  - reflexivity.
  - discriminate.
Defined.

(** ** A call made twice *)

Section Twice.

Implicit Types (this : Browser) (obj v x : value) (k p path : string)
  (segments : list string).

Lemma set_same obj path v obj' :
  DO.set obj path v = Some obj' → DO.set obj' path v = Some obj'.
Proof. unfold DO.set. destruct v; try done; apply set_at_same. Qed.

Lemma with_capability_twice this k v :
  with_capability (with_capability this k v) k v = with_capability this k v.
Proof.
  unfold with_capability.
  destruct (sessionParameters this) as [| | | | | |root|] eqn:Hsp;
    try by rewrite Hsp.
  destruct (root !! "capabilities") as [[| | | | | |caps|]|] eqn:Hc;
    try by rewrite Hsp, Hc.
  simpl. rewrite lookup_insert_eq.
  unfold with_sessionParameters. simpl.
  by rewrite !insert_insert_eq.
Qed.

Lemma setAlwaysMatchKey_twice this path v force this1 :
  setAlwaysMatchKey this path v force = Return this1 →
  setAlwaysMatchKey this1 path v force = Return this1.
Proof.
  intros H. pose proof H as H0. unfold setAlwaysMatchKey in H.
  destruct (alwaysMatch this) as [am|] eqn:Ham; [|done].
  destruct (_ || _) eqn:Hcond; cycle 1.
  { by injection H as <-. }
  destruct (DO.set am path v) as [am1|] eqn:Hset; [|done].
  injection H as <-.
  pose proof (setAlwaysMatchKey_written _ _ _ _ _ Ham Hset) as Ham1.
  unfold setAlwaysMatchKey. rewrite Ham1.
  rewrite (set_same _ _ _ _ Hset).
  case_match; [|done]. by rewrite with_capability_twice.
Qed.

Lemma setRootKey_twice this path v force this1 :
  setRootKey this path v force = Return this1 →
  setRootKey this1 path v force = Return this1.
Proof.
  intros H. pose proof H as H0. unfold setRootKey in H.
  destruct (_ || _) eqn:Hcond; cycle 1.
  { by injection H as <-. }
  destruct (DO.set (sessionParameters this) path v) as [sp1|] eqn:Hset; [|done].
  injection H as <-.
  unfold setRootKey. simpl.
  rewrite (set_same _ _ _ _ Hset).
  by case_match.
Qed.

Lemma setSpecificKey_twice this path v force this1 :
  setSpecificKey this path v force = Return this1 →
  setSpecificKey this1 path v force = Return this1.
Proof.
  intros H. pose proof H as H0. unfold setSpecificKey in H.
  destruct (specificKey this) as [k|] eqn:Hk; [|done].
  destruct (negb _) eqn:Hguard; [done|].
  destruct (_ || _) eqn:Hcond; cycle 1.
  { by injection H as <-. }
  destruct (DO.set (sessionParameters this) _ v) as [sp1|] eqn:Hset; [|done].
  injection H as <-.
  unfold setSpecificKey.
  cbn [specificKey sessionParameters with_sessionParameters].
  rewrite Hk, Hguard.
  rewrite (set_same _ _ _ _ Hset).
  by case_match.
Qed.

(** A call that throws leaves the object as it was. *)
Lemma perform_throw this (c : call) e this' :
  perform this c = Throw e this' → this' = this.
Proof.
  destruct c as [path v force|n v force|path v force|path v force]; simpl.
  - unfold setAlwaysMatchKey. repeat case_match; congruence.
  - unfold addFirstMatch. repeat case_match; congruence.
  - unfold setRootKey. repeat case_match; congruence.
  - unfold setSpecificKey. repeat case_match; congruence.
Qed.

End Twice.

(** X8: a configuration call made once more with the same arguments on the
    object it left ends as it did the first time, by the same return or
    the same throw, and leaves that object as it is; this holds for every
    call but a forced [addFirstMatch], which appends a second entry. *)
Theorem repeated_call_changes_nothing (this : Browser) (c : call) :
  repeatable c = true →
  perform (state_of (perform this c)) c = perform this c.
Proof.
  intros Hc. destruct (perform this c) as [this1|e this1] eqn:H; simpl.
  - destruct c as [path v force|n v force|path v force|path v force];
      simpl in *.
    + by apply (setAlwaysMatchKey_twice this).
    + apply negb_true_iff in Hc.
      pose proof (addFirstMatch_unforced this n v force Hc) as Hs.
      rewrite H in Hs. simpl in Hs. by subst.
    + by apply (setRootKey_twice this).
    + by apply (setSpecificKey_twice this).
  - pose proof (perform_throw _ _ _ _ H) as ->. done.
Qed.

Lemma repeated_call_changes_nothing_witness :
  let c := CallSetRootKey "login.user" (VStr "blah") None in
  let this := state_of (setRootKey constructor "login" (VStr "x") None) in
  perform (state_of (perform this c)) c = perform this c.
Proof.
  intros c this. apply (repeated_call_changes_nothing this c). reflexivity.
Defined.

(** ** What [capabilities.firstMatch] holds *)

Section FirstMatch.

Implicit Types (this : Browser) (sp v : value) (k path : string)
  (segments : list string) (items : list value) (cs : list call).

Lemma capability_with_other_capability this k k' v :
  k ≠ k' → capability (with_capability this k v) k' = capability this k'.
Proof.
  intros Hk. unfold with_capability.
  destruct (sessionParameters this) as [| | | | | |root|] eqn:Hsp; try done.
  destruct (root !! "capabilities") as [[| | | | | |caps|]|] eqn:Hc; try done.
  unfold capability, capabilities, member. simpl.
  rewrite Hsp, Hc, lookup_insert_eq. simpl. by rewrite lookup_insert_ne.
Qed.

(** A deep write that is not at [capabilities] and does not go through
    [capabilities.firstMatch] leaves the sequence as it is. *)
Lemma set_at_keeps_firstMatch sp (root caps : gmap string value) items
    segments v sp' :
  sp = VObj root →
  root !! "capabilities" = Some (VObj caps) →
  caps !! "firstMatch" = Some (VArr items) →
  DO.set_at sp segments v = Some sp' →
  segments ≠ [] →
  segments ≠ ["capabilities"] →
  segments ≠ ["capabilities"; "firstMatch"] →
  ∃ root' caps' : gmap string value,
    sp' = VObj root'
    ∧ root' !! "capabilities" = Some (VObj caps')
    ∧ caps' !! "firstMatch" = Some (VArr items).
Proof.
  intros -> Hc Hfm Hset H0 H1 H2.
  destruct segments as [|k1 rest1]; [done|]. simpl in Hset.
  destruct (String.eqb k1 "__proto__").
  { injection Hset as <-. by exists root, caps. }
  destruct (DO.set_at (DO.child root k1) rest1 v) as [c1|] eqn:E1; [|done].
  injection Hset as <-.
  destruct (decide (k1 = "capabilities")) as [->|Hk1]; cycle 1.
  { exists (<[k1 := c1]> root), caps. by simplify_map_eq. }
  rewrite (child_obj _ _ _ Hc) in E1.
  destruct rest1 as [|k2 rest2]; [done|]. simpl in E1.
  destruct (String.eqb k2 "__proto__").
  { injection E1 as <-.
    exists (<["capabilities" := VObj caps]> root), caps. by simplify_map_eq. }
  destruct (DO.set_at (DO.child caps k2) rest2 v) as [c2|] eqn:E2; [|done].
  injection E1 as <-.
  destruct (decide (k2 = "firstMatch")) as [->|Hk2].
  { unfold DO.child in E2. rewrite Hfm in E2.
    destruct rest2 as [|k3 rest3]; [done|]. simpl in E2. injection E2 as <-.
    exists (<["capabilities" := VObj (<["firstMatch" := VArr items]> caps)]> root),
      (<["firstMatch" := VArr items]> caps).
    by simplify_map_eq. }
  exists (<["capabilities" := VObj (<[k2 := c2]> caps)]> root), (<[k2 := c2]> caps).
  by simplify_map_eq.
Qed.

Lemma names_firstMatch_split path :
  names_firstMatch path = false →
  DO.split path ≠ ["capabilities"]
  ∧ DO.split path ≠ ["capabilities"; "firstMatch"].
Proof.
  unfold names_firstMatch. intros H.
  split; intros E; rewrite E in H; by vm_compute in H.
Qed.

(** A root write that went through, as [firstMatch] shows it. *)
Lemma firstMatch_after_root_write this items segments v sp' :
  firstMatch this = Some (VArr items) →
  DO.set_at (sessionParameters this) segments v = Some sp' →
  segments ≠ [] →
  segments ≠ ["capabilities"] →
  segments ≠ ["capabilities"; "firstMatch"] →
  firstMatch (with_sessionParameters this sp') = Some (VArr items).
Proof.
  intros Hfm Hset H0 H1 H2.
  destruct (capability_inv _ _ _ Hfm) as (root & caps & Hsp & Hc & Hk); [done|].
  destruct (set_at_keeps_firstMatch _ _ _ _ _ _ _ Hsp Hc Hk Hset H0 H1 H2)
    as (root' & caps' & -> & Hc' & Hk').
  unfold firstMatch.
  rewrite (capability_shape _ root' caps'); [|done|done].
  by rewrite Hk'.
Qed.

Lemma pushed_cons (c : call) cs : pushed (c :: cs) = (pushed [c] ++ pushed cs)%list.
Proof. destruct c; simpl; try done. by destruct (default_arg false force). Qed.

Lemma perform_firstMatch this (c : call) items :
  firstMatch this = Some (VArr items) →
  keeps_firstMatch c = true →
  firstMatch (state_of (perform this c)) = Some (VArr (items ++ pushed [c])).
Proof.
  intros Hfm Hc.
  destruct c as [path v force|n v force|path v force|path v force]; simpl;
    rewrite ?app_nil_r.
  - unfold setAlwaysMatchKey. repeat case_match; simpl; try done.
    unfold firstMatch. by rewrite capability_with_other_capability.
  - destruct (default_arg false force) eqn:Hf.
    + unfold addFirstMatch. rewrite Hf, Hfm. simpl.
      by apply (capability_with_capability _ _ (VArr items)).
    + rewrite addFirstMatch_unforced by done. by rewrite app_nil_r.
  - unfold setRootKey.
    destruct (_ || _); [|done].
    destruct (DO.set (sessionParameters this) path v) as [sp|] eqn:Hset; [|done].
    simpl. apply negb_true_iff, names_firstMatch_split in Hc as [H1 H2].
    assert (DO.set_at (sessionParameters this) (DO.split path) v = Some sp)
      as Hset' by (unfold DO.set in Hset; by destruct v).
    apply (firstMatch_after_root_write _ _ (DO.split path) v); try done.
    apply split_nonempty.
  - unfold setSpecificKey.
    destruct (specificKey this) as [k|]; [|done].
    destruct (negb _); [done|].
    destruct (_ || _); [|done].
    destruct (DO.set (sessionParameters this) _ v) as [sp|] eqn:Hset; [|done].
    simpl.
    assert (DO.set_at (sessionParameters this)
              (DO.split ("capabilities.alwaysMatch." ++ k ++ "." ++ path)) v
            = Some sp) as Hset' by (unfold DO.set in Hset; by destruct v).
    rewrite split_target in Hset'.
    by apply (firstMatch_after_root_write _ _ _ v _ Hfm Hset').
Qed.

Lemma firstMatch_after cs : ∀ this items,
  firstMatch this = Some (VArr items) →
  forallb keeps_firstMatch cs = true →
  firstMatch (perform_all this cs) = Some (VArr (items ++ pushed cs)).
Proof.
  induction cs as [|c rest IH]; intros this items Hfm Hcs.
  - simpl. by rewrite app_nil_r.
  - simpl in Hcs. apply andb_true_iff in Hcs as [Hc Hrest].
    rewrite pushed_cons, app_assoc. simpl.
    apply IH; [|done]. by apply perform_firstMatch.
Qed.


End FirstMatch.

(** X1: on a variant whose document is as the constructor leaves it, after
    any sequence of configuration calls whose values are primitives and in
    which no [setRootKey] has the path [capabilities] or a path that starts
    with [capabilities.firstMatch], [capabilities.firstMatch] holds one
    entry [{name: value}] for each forced [addFirstMatch] call, in the
    order of the calls and with duplicates kept, and nothing else: no other
    call adds, removes or changes an entry. *)
Theorem firstMatch_is_the_forced_entries (this : Browser) (cs : list call) :
  sessionParameters this = sessionParameters constructor →
  forallb (λ c, primitive (call_value c)) cs = true →
  forallb keeps_firstMatch cs = true →
  firstMatch (perform_all this cs) = Some (VArr (pushed cs)).
Proof.
  intros Hsp _ Hcs.
  apply (firstMatch_after cs this []); [|done].
  unfold firstMatch, capability, capabilities. by rewrite Hsp.
Qed.

Lemma firstMatch_is_the_forced_entries_witness :
  firstMatch
    (perform_all (with_specificKey constructor "chromeOptions")
       [ CallAddFirstMatch "browserName" (VStr "chrome") (Some true);
         CallSetRootKey "capabilities.alwaysMatch.browserName" (VStr "x") None;
         CallAddFirstMatch "browserName" (VStr "safari") None;
         CallSetAlwaysMatchKey "platformName" (VStr "linux") None;
         CallSetSpecificKey "w3c" (VBool true) None;
         CallAddFirstMatch "browserName" (VStr "chrome") (Some true) ])
  = Some (VArr [ VObj {[ "browserName" := VStr "chrome" ]};
                 VObj {[ "browserName" := VStr "chrome" ]} ]).
Proof.
  apply (firstMatch_is_the_forced_entries
           (with_specificKey constructor "chromeOptions")); reflexivity.
Defined.


